(** * reboot-to: a shallow embedding of src/main.rs

    The Rust program wraps [efibootmgr] and [shutdown]: it parses the listing
    printed by [efibootmgr], resolves a query against it, drives a small TUI
    selection loop and runs the external commands.

    Text is modelled as [list ascii] (the program reads UTF-8; the model covers
    ASCII texts), unsigned integers ([u16], [usize]) as [N]. *)

From Stdlib Require Import List Ascii String Bool Arith NArith ZArith Lia.
Import ListNotations.

(** ** Characters and Rust string primitives *)

Definition txt (s : string) : list ascii := list_ascii_of_string s.

Definition is_alpha (c : ascii) : bool :=
  let n := nat_of_ascii c in
  ((65 <=? n) && (n <=? 90)) || ((97 <=? n) && (n <=? 122)).

Definition is_digit (c : ascii) : bool :=
  let n := nat_of_ascii c in (48 <=? n) && (n <=? 57).

(** [\s] of the regex crate restricted to ASCII: U+0009..U+000D and U+0020. *)
Definition is_space (c : ascii) : bool :=
  let n := nat_of_ascii c in ((9 <=? n) && (n <=? 13)) || (n =? 32).

Definition is_nl (c : ascii) : bool := Ascii.eqb c "010"%char.

Fixpoint str_eqb (a b : list ascii) : bool :=
  match a, b with
  | [], [] => true
  | x :: a', y :: b' => Ascii.eqb x y && str_eqb a' b'
  | _, _ => false
  end.

(** [str::starts_with]. *)
Fixpoint starts_with (s p : list ascii) {struct p} : bool :=
  match p, s with
  | [], _ => true
  | y :: p', x :: s' => Ascii.eqb x y && starts_with s' p'
  | _ :: _, [] => false
  end.

(** [str::parse::<u16>] ([u16::from_str_radix] with radix 10): an optional
    leading ['+'], then at least one decimal digit; any other character or a
    value above [u16::MAX] is an error. *)
Definition digit_val (c : ascii) : N := N.of_nat (nat_of_ascii c - 48).

Fixpoint parse_digits (acc : N) (s : list ascii) : option N :=
  match s with
  | [] => Some acc
  | c :: s' =>
      if is_digit c then
        let v := (acc * 10 + digit_val c)%N in
        if (v <=? 65535)%N then parse_digits v s' else None
      else None
  end.

Definition parse_u16 (s : list ascii) : option N :=
  match s with
  | [] => None
  | c :: rest =>
      if Ascii.eqb c "+"%char then
        match rest with [] => None | _ => parse_digits 0 rest end
      else parse_digits 0 s
  end.

Definition unwrap_or {A} (o : option A) (d : A) : A :=
  match o with Some x => x | None => d end.

(** ** Data model *)

Record BootTarget := mkTarget { id : N; name : list ascii }.

Record BootTargets := mkTargets {
  targets : list BootTarget;
  current : option N;
  next : option N }.

Inductive ChosenAction :=
  | ANone
  | RebootTo (t : BootTarget)
  | SetNext (t : BootTarget).

(** [BootTargets::lookup]. *)
Definition lookup (bt : BootTargets) (query : list ascii) : option BootTarget :=
  match parse_u16 query with
  | Some qid => find (fun t => N.eqb (id t) qid) (targets bt)
  | None => find (fun t => starts_with (name t) query) (targets bt)
  end.

(** ** The two regular expressions of [parse_boot_targets]

    Both regexes are compiled with [(?m)], so [^] matches at the start of the
    text or after a line feed, and [$] at the end of the text or before a line
    feed.  All their repetitions are over single-character classes, so a
    regex is a flat list of items, and the leftmost-first (backtracking
    priority) semantics of the regex crate is the search below: a quantifier
    tries its repetition counts longest-first when greedy, shortest-first when
    lazy, and the first alternative that lets the rest match wins. *)
Module Regex.

Inductive cls := CAlpha | CDigit | CSpace | CNotNL | CLit (c : ascii).

Definition cls_ok (k : cls) (x : ascii) : bool :=
  match k with
  | CAlpha => is_alpha x
  | CDigit => is_digit x
  | CSpace => is_space x
  | CNotNL => negb (is_nl x)
  | CLit c => Ascii.eqb x c
  end.

Inductive greed := Greedy | Lazy.

(** [Mark n] records the current position; group [g] spans marks [2g] and
    [2g+1]. *)
Inductive item :=
  | Bol
  | Eol
  | One (k : cls)
  | Rep (g : greed) (min : nat) (k : cls)
  | Mark (n : nat).

(** Length of the longest prefix of [s] in class [k]. *)
Fixpoint run (k : cls) (s : list ascii) : nat :=
  match s with
  | x :: s' => if cls_ok k x then S (run k s') else 0
  | [] => 0
  end.

(** Repetition counts in the order a quantifier tries them. *)
Definition order (g : greed) (m n : nat) : list nat :=
  match g with
  | Greedy => rev (seq m (S n - m))
  | Lazy => seq m (S n - m)
  end.

Fixpoint first_some {A B} (f : A -> option B) (l : list A) : option B :=
  match l with
  | [] => None
  | x :: l' => match f x with Some y => Some y | None => first_some f l' end
  end.

Definition at_eol (s : list ascii) : bool :=
  match s with [] => true | x :: _ => is_nl x end.

(** Whether the position [j] characters into [s] is a line start, given that
    the position at [s] is one exactly when [b]. *)
Definition bol_after (b : bool) (s : list ascii) (j : nat) : bool :=
  match j with 0 => b | S j' => is_nl (nth j' s "000"%char) end.

Definition marks := list (nat * list ascii).

(** Matching the items [its] at a position: [b] says whether it is a line
    start, [s] is the text from there.  The result is the line-start flag and
    the text at the end of the match, and the text at each mark. *)
Fixpoint mtch (its : list item) (b : bool) (s : list ascii)
  : option (bool * list ascii * marks) :=
  match its with
  | [] => Some (b, s, [])
  | Bol :: r => if b then mtch r b s else None
  | Eol :: r => if at_eol s then mtch r b s else None
  | One k :: r =>
      match s with
      | x :: s' => if cls_ok k x then mtch r (is_nl x) s' else None
      | [] => None
      end
  | Mark n :: r =>
      match mtch r b s with
      | Some (b', s', ms) => Some (b', s', (n, s) :: ms)
      | None => None
      end
  | Rep g m k :: r =>
      first_some (fun j => mtch r (bol_after b s j) (skipn j s))
        (order g m (run k s))
  end.

(** Leftmost search: the first start position at which the items match. *)
Fixpoint scan (its : list item) (b : bool) (s : list ascii)
  : option (bool * list ascii * marks) :=
  match mtch its b s with
  | Some res => Some res
  | None =>
      match s with
      | [] => None
      | x :: s' => scan its (is_nl x) s'
      end
  end.

(** [Regex::captures_iter]: successive non-overlapping matches, each search
    resuming where the previous match ended.  Neither regex below matches the
    empty string, so every match consumes a character and [S (length s)]
    rounds are enough. *)
Fixpoint iter (fuel : nat) (its : list item) (b : bool) (s : list ascii)
  : list marks :=
  match fuel with
  | O => []
  | S f =>
      match scan its b s with
      | Some (b', s', ms) => ms :: iter f its b' s'
      | None => []
      end
  end.

Definition captures_iter (its : list item) (s : list ascii) : list marks :=
  iter (S (List.length s)) its true s.

Fixpoint assoc (n : nat) (ms : marks) : option (list ascii) :=
  match ms with
  | [] => None
  | (k, v) :: ms' => if Nat.eqb k n then Some v else assoc n ms'
  end.

(** The text between two marks. *)
Definition cut (a e : list ascii) : list ascii := firstn (List.length a - List.length e) a.

Definition group (g : nat) (ms : marks) : list ascii :=
  match assoc (2 * g) ms, assoc (2 * g + 1) ms with
  | Some a, Some e => cut a e
  | _, _ => []
  end.

(** [caps.extract()] with two groups. *)
Definition extract (ms : marks) : list ascii * list ascii := (group 1 ms, group 2 ms).

End Regex.
Import Regex.

Definition tab : ascii := "009"%char.

(** The regex  (?m) ^ ([a-zA-Z]+) : \s+ (.* ) $  (written with spaces). *)
Definition regex_options : list item :=
  [Bol; Mark 2; Rep Greedy 1 CAlpha; Mark 3; One (CLit ":"%char);
   Rep Greedy 1 CSpace; Mark 4; Rep Greedy 0 CNotNL; Mark 5; Eol].

(** The regex  (?m) ^ [a-zA-Z]* ([0-9]+) \* \s+ (.*?) \t .* $  (written with spaces). *)
Definition regex_targets : list item :=
  [Bol; Rep Greedy 0 CAlpha; Mark 2; Rep Greedy 1 CDigit; Mark 3;
   One (CLit "*"%char); Rep Greedy 1 CSpace; Mark 4; Rep Lazy 0 CNotNL;
   Mark 5; One (CLit tab); Rep Greedy 0 CNotNL; Eol].

(** ** [parse_boot_targets] *)

(** One round of the loop over the option matches. *)
Definition apply_option (result : BootTargets) (kv : list ascii * list ascii)
  : BootTargets :=
  let (key, value) := kv in
  if str_eqb key (txt "BootCurrent") then
    mkTargets (targets result) (Some (unwrap_or (parse_u16 value) 1%N)) (next result)
  else if str_eqb key (txt "BootNext") then
    mkTargets (targets result) (current result) (Some (unwrap_or (parse_u16 value) 1%N))
  else result.

(** One round of the loop over the target matches: invalid ids are skipped. *)
Definition push_target (result : BootTargets) (idn : list ascii * list ascii)
  : BootTargets :=
  let (idtxt, nm) := idn in
  match parse_u16 idtxt with
  | None => result
  | Some i => mkTargets (targets result ++ [mkTarget i nm]) (current result) (next result)
  end.

Definition parse_boot_targets (raw : list ascii) : BootTargets :=
  let result := mkTargets [] None None in
  let result := fold_left apply_option
                  (map extract (captures_iter regex_options raw)) result in
  fold_left push_target (map extract (captures_iter regex_targets raw)) result.

(** ** External commands: [set_next_boot], [reboot_to], [set_next_boot_wrapper] *)

Definition digit_char (d : N) : ascii := ascii_of_nat (48 + N.to_nat d).

(** Decimal [Display] of an unsigned integer (most significant digit first);
    20 rounds cover every [u64], hence every [u16]. *)
Fixpoint dec_rev (fuel : nat) (n : N) : list ascii :=
  match fuel with
  | O => []
  | S f =>
      digit_char (n mod 10)%N ::
        (if (n / 10 =? 0)%N then [] else dec_rev f (n / 10)%N)
  end.

Definition dec (n : N) : list ascii := rev (dec_rev 20 n).

(** [format!("{:0>4}", n)]: right-aligned in a field of width 4, filled
    with ['0'] on the left; longer output is not truncated. *)
Definition fmt_pad4 (n : N) : list ascii :=
  repeat "0"%char (4 - List.length (dec n)) ++ dec n.

Record Cmd := mkCmd { program : list ascii; args : list (list ascii) }.

(** The outcome of [Command::status()]: a launch error, or an exit status
    with its code ([None] when killed by a signal). *)
Inductive Status := LaunchError | Exited (code : option Z).

(** [ExitStatus::success]. *)
Definition success (s : Status) : bool :=
  match s with Exited (Some 0%Z) => true | _ => false end.

Definition set_next_boot (t : BootTarget) : Cmd :=
  mkCmd (txt "efibootmgr") [txt "--bootnext"; fmt_pad4 (id t)].

Definition shutdown_reboot : Cmd := mkCmd (txt "shutdown") [txt "-r"; txt "now"].

(** What a dispatch does: the commands it runs, in order, and the lines it
    prints.  The environment [run] answers each command with its status. *)
Record Trace := mkTrace { invoked : list Cmd; printed : list (list ascii) }.

Definition code_text (s : Status) : list ascii :=
  match s with
  | Exited (Some c) =>
      if (c <? 0)%Z then "-"%char :: dec (Z.to_N (- c)) else dec (Z.to_N c)
  | _ => txt "-1"
  end.

Section Dispatch.
Variable run : Cmd -> Status.

Definition reboot_to (t : BootTarget) : Trace :=
  let c1 := set_next_boot t in
  match run c1 with
  | LaunchError =>
      mkTrace [c1] [txt "Could not set boot target using efibootmgr, aborting..."]
  | st =>
      let msg1 := if success st then []
                  else [txt "efibootmgr exited with non-zero status: " ++ code_text st] in
      let st2 := run shutdown_reboot in
      let msg2 := if success st2 then []
                  else [txt "Unable to reboot using shutdown command. Bootnext has been set, either reboot manually or clear"] in
      mkTrace [c1; shutdown_reboot] (msg1 ++ msg2)
  end.

Definition set_next_boot_wrapper (t : BootTarget) : Trace :=
  let c1 := set_next_boot t in
  match run c1 with
  | LaunchError =>
      mkTrace [c1] [txt "Could not set boot target using efibootmgr, aborting..."]
  | st =>
      mkTrace [c1] (if success st then []
                    else [txt "efibootmgr exited with non-zero status: " ++ code_text st])
  end.

(** The [match action] at the end of [tui_selection]. *)
Definition dispatch (a : ChosenAction) : Trace :=
  match a with
  | ANone => mkTrace [] []
  | RebootTo t => reboot_to t
  | SetNext t => set_next_boot_wrapper t
  end.

End Dispatch.

(** ** The selection loop of [tui_selection] *)

Definition usize_max : N := 18446744073709551615%N.

(** [a - b] on [usize] with the overflow check of a debug build: [None] is
    the panic "attempt to subtract with overflow" (a release build wraps). *)
Definition usize_sub (a b : N) : option N :=
  if (b <=? a)%N then Some (a - b)%N else None.

(** [ratatui::widgets::ListState]: only the selected index matters here. *)
Definition select_first (sel : option N) : option N := Some 0%N.
Definition select_last (sel : option N) : option N := Some usize_max.
Definition select_next (sel : option N) : option N :=
  Some (match sel with None => 0%N | Some i => N.min (i + 1) usize_max end).
Definition select_previous (sel : option N) : option N :=
  Some (match sel with None => usize_max | Some i => (i - 1)%N end).

(** Rendering a [ratatui] [List] with [n] items through the state (library
    behaviour, for a non-empty drawing area): with no items the selection is
    cleared, and a selection past the last item is moved to the last item. *)
Definition render_list (n : nat) (sel : option N) : option N :=
  if Nat.eqb n 0 then None
  else match sel with
       | Some s => if (N.of_nat n <=? s)%N then Some (N.of_nat n - 1)%N else Some s
       | None => None
       end.

Inductive KeyCode := KChar (c : ascii) | KEsc | KDown | KUp | KHome | KEnd | KEnter | KOtherKey.
Inductive KeyEventKind := Press | Repeat | Release.
Record KeyEvent := mkKey { key_code : KeyCode; key_kind : KeyEventKind; key_ctrl : bool }.
Inductive Event := EvKey (k : KeyEvent) | EvOther.

Definition keycode_eqb (a b : KeyCode) : bool :=
  match a, b with
  | KChar x, KChar y => Ascii.eqb x y
  | KEsc, KEsc | KDown, KDown | KUp, KUp | KHome, KHome | KEnd, KEnd
  | KEnter, KEnter | KOtherKey, KOtherKey => true
  | _, _ => false
  end.

Definition is_press (k : KeyEventKind) : bool :=
  match k with Press => true | _ => false end.

(** The result of handling one key: stay in the loop with a new selection,
    [break] with the action, or panic. *)
Inductive Step := Continue (sel : option N) | Break (act : ChosenAction) | Panic.

(** The [Enter] / [n] branch: the action for a valid selected index. *)
Definition chosen (ts : list BootTarget) (mk : BootTarget -> ChosenAction)
  (sel : option N) (action : ChosenAction) : ChosenAction :=
  match sel with
  | Some index =>
      if (index <? N.of_nat (List.length ts))%N then
        match nth_error ts (N.to_nat index) with
        | Some t => mk t
        | None => action
        end
      else action
  | None => action
  end.

(** The body of [if key.kind == KeyEventKind::Press { ... }]. *)
Definition handle_key (ts : list BootTarget) (sel : option N)
  (action : ChosenAction) (key : KeyEvent) : Step :=
  let item_count := N.of_nat (List.length ts) in
  let c := key_code key in
  if negb (is_press (key_kind key)) then Continue sel
  else if keycode_eqb c (KChar "q"%char) || keycode_eqb c KEsc then Break action
  else if keycode_eqb c (KChar "c"%char) && key_ctrl key then Break action
  else
    match (if keycode_eqb c KDown then
             match usize_sub item_count 1 with
             | None => None
             | Some last =>
                 Some (if (last <=? unwrap_or sel 0)%N then select_first sel
                       else select_next sel)
             end
           else Some sel) with
    | None => Panic
    | Some sel =>
        let sel := if keycode_eqb c KUp then
                     if (unwrap_or sel 0 <=? 0)%N then select_last sel
                     else select_previous sel
                   else sel in
        let sel := if keycode_eqb c KHome then select_first sel else sel in
        let sel := if keycode_eqb c KEnd then select_last sel else sel in
        if keycode_eqb c KEnter then Break (chosen ts RebootTo sel action)
        else if keycode_eqb c (KChar "n"%char) then Break (chosen ts SetNext sel action)
        else Continue sel
    end.

(** What one round of the loop meets: [terminal.draw] failing, [event::poll]
    failing, the poll timing out, [event::read] failing, or an event. *)
Inductive Tick := TickDrawError | TickPollError | TickTimeout | TickReadError
                | TickEvent (e : Event).

Inductive LoopExit := ExitBreak (a : ChosenAction) | ExitIoError | ExitPanic | StillRunning.

(** The [loop]: each round draws the list (which updates the list state),
    then polls and reads one event.  [StillRunning]: the rounds given ran out
    while the loop was still going. *)
Fixpoint tui_loop (ts : list BootTarget) (sel : option N) (action : ChosenAction)
  (ticks : list Tick) : LoopExit :=
  match ticks with
  | [] => StillRunning
  | TickDrawError :: _ => ExitIoError
  | t :: rest =>
      let sel := render_list (List.length ts) sel in
      match t with
      | TickDrawError | TickPollError | TickReadError => ExitIoError
      | TickTimeout | TickEvent EvOther => tui_loop ts sel action rest
      | TickEvent (EvKey k) =>
          match handle_key ts sel action k with
          | Continue sel' => tui_loop ts sel' action rest
          | Break a => ExitBreak a
          | Panic => ExitPanic
          end
      end
  end.

(** Terminal mode, the shared resource of the loop. *)
Record Term := mkTerm { alternate : bool; raw_mode : bool }.

Definition normal_term : Term := mkTerm false false.

Inductive Op := OpEnterAlternateScreen | OpEnableRawMode | OpTerminalNew | OpClear
              | OpLeaveAlternateScreen | OpDisableRawMode.

Definition op_effect (op : Op) (t : Term) : Term :=
  match op with
  | OpEnterAlternateScreen => mkTerm true (raw_mode t)
  | OpEnableRawMode => mkTerm (alternate t) true
  | OpLeaveAlternateScreen => mkTerm false (raw_mode t)
  | OpDisableRawMode => mkTerm (alternate t) false
  | _ => t
  end.

(** A state monad over the terminal mode with Rust's [Result] and [?]:
    [Err] is an [io::Error] returned early, [Running] a loop that has not
    exited. *)
Inductive Res (A : Type) := Ok (a : A) | Err | Panicked | Running.
Arguments Ok {A} a.
Arguments Err {A}.
Arguments Panicked {A}.
Arguments Running {A}.

Definition M (A : Type) := Term -> Res A * Term.

Definition ret {A} (a : A) : M A := fun t => (Ok a, t).

Definition bind {A B} (m : M A) (k : A -> M B) : M B :=
  fun t =>
    match m t with
    | (Ok a, t') => k a t'
    | (Err, t') => (Err, t')
    | (Panicked, t') => (Panicked, t')
    | (Running, t') => (Running, t')
    end.

Notation "x <- m ;; k" := (bind m (fun x => k)) (at level 61, m at next level, right associativity).

Section Tui.
(** [ok op]: whether the terminal operation [op] succeeds. *)
Variable ok : Op -> bool.
Variable run : Cmd -> Status.

Definition io (op : Op) : M unit :=
  fun t => if ok op then (Ok tt, op_effect op t) else (Err, t).

Definition loop_m (ts : list BootTarget) (ticks : list Tick) : M ChosenAction :=
  fun t =>
    match tui_loop ts (Some 0%N) ANone ticks with
    | ExitBreak a => (Ok a, t)
    | ExitIoError => (Err, t)
    | ExitPanic => (Panicked, t)
    | StillRunning => (Running, t)
    end.

Definition tui_selection (bt : BootTargets) (ticks : list Tick) : M Trace :=
  _ <- io OpEnterAlternateScreen ;;
  _ <- io OpEnableRawMode ;;
  _ <- io OpTerminalNew ;;
  _ <- io OpClear ;;
  action <- loop_m (targets bt) ticks ;;
  _ <- io OpLeaveAlternateScreen ;;
  _ <- io OpDisableRawMode ;;
  ret (dispatch run action).

End Tui.

(** ** [BootTargets::get_names], [BootTargets::print_list] *)

Definition is_some_and (o : option N) (p : N -> bool) : bool :=
  match o with Some x => p x | None => false end.

(** The strings of the TUI list: each name behind a five-character label. *)
Definition get_names (bt : BootTargets) : list (list ascii) :=
  map (fun t =>
         let s := name t in
         if is_some_and (next bt) (fun nx => N.eqb nx (id t)) then txt "nxt: " ++ s
         else if is_some_and (current bt) (fun cu => N.eqb cu (id t)) then txt "cur: " ++ s
         else txt "     " ++ s)
      (targets bt).

(** The lines [println!("{} \t {}", target.id, target.name)] writes. *)
Definition print_list (bt : BootTargets) : list (list ascii) :=
  map (fun t => dec (id t) ++ " "%char :: tab :: " "%char :: name t) (targets bt).

(** ** [get_boot_targets] and [main] *)

Definition efibootmgr_listing : Cmd := mkCmd (txt "efibootmgr") [].

(** [output]: the standard output of [efibootmgr] decoded by
    [String::from_utf8]; [None] when running it or decoding fails, which
    panics through [expect]. *)
Definition get_boot_targets (output : option (list ascii)) : option BootTargets :=
  option_map parse_boot_targets output.

(** The command line as [clap] fills [Arguments]. *)
Record Arguments := mkArgs {
  arg_list : option bool;
  arg_next : option (list ascii);
  arg_reboot_to : option (list ascii) }.

Inductive ExitCode := ExitSuccess | ExitFailure.

(** How [main] ends: with an exit code, in a panic, or still in the TUI
    loop when the events given run out. *)
Inductive MainEnd := Exit (c : ExitCode) | MainPanic | MainRunning.

(** What a run of [main] does: how it ends, the commands it runs in order,
    and the lines it writes to standard output and standard error (panic
    messages apart). *)
Record Outcome := mkOutcome {
  ends : MainEnd;
  ran : list Cmd;
  out_lines : list (list ascii);
  err_lines : list (list ascii) }.

Definition not_found (dest : list ascii) : list ascii :=
  txt "Could not find UEFI boot entry from specifier " ++ "034"%char :: dest ++ ["034"%char].

Section Main.
Variable run : Cmd -> Status.
Variable ok : Op -> bool.
Variable ticks : list Tick.
Variable output : option (list ascii).

Definition after_listing (e : MainEnd) (tr : Trace) : Outcome :=
  mkOutcome e (efibootmgr_listing :: invoked tr) (printed tr) [].

Definition main (a : Arguments) : Outcome :=
  match get_boot_targets output with
  | None => mkOutcome MainPanic [efibootmgr_listing] [] []
  | Some bt =>
      if unwrap_or (arg_list a) false then
        mkOutcome (Exit ExitSuccess) [efibootmgr_listing] (print_list bt) []
      else match arg_reboot_to a with
      | Some dest =>
          match lookup bt dest with
          | Some t => after_listing (Exit ExitSuccess) (reboot_to run t)
          | None => mkOutcome (Exit ExitFailure) [efibootmgr_listing] [] [not_found dest]
          end
      | None =>
          match arg_next a with
          | Some dest =>
              match lookup bt dest with
              | Some t => after_listing (Exit ExitSuccess) (set_next_boot_wrapper run t)
              | None => mkOutcome (Exit ExitFailure) [efibootmgr_listing] [] [not_found dest]
              end
          | None =>
              match fst (tui_selection ok run bt ticks normal_term) with
              | Ok tr => after_listing (Exit ExitSuccess) tr
              | Err | Panicked => mkOutcome MainPanic [efibootmgr_listing] [] []
              | Running => mkOutcome MainRunning [efibootmgr_listing] [] []
              end
          end
      end
  end.

End Main.

(** ** Line by line reading of the texts, and examples *)

(** Splitting a text at its line feeds, and joining lines back. *)
Fixpoint lines (s : list ascii) : list (list ascii) :=
  match s with
  | [] => [[]]
  | c :: s' =>
      if is_nl c then [] :: lines s'
      else match lines s' with
           | l :: ls => (c :: l) :: ls
           | [] => [[c]]
           end
  end.

Fixpoint join (ls : list (list ascii)) : list ascii :=
  match ls with
  | [] => []
  | [l] => l
  | l :: ls' => l ++ "010"%char :: join ls'
  end.

Definition no_nl (l : list ascii) : Prop := Forall (fun c => is_nl c = false) l.

(** A match on text [v ++ t] where [t] starts a new line (or is empty) and
    the match on [v] alone: [lift t] moves a result on [v] to [v ++ t]. *)
Definition nl_start (t : list ascii) : Prop := t = [] \/ exists t', t = "010"%char :: t'.

Definition lift (t : list ascii) (res : bool * list ascii * marks) : bool * list ascii * marks :=
  let '(b, r, ms) := res in (b, r ++ t, map (fun '(n, v) => (n, v ++ t)) ms).

(** The condition under which the items never look past the end of [v]:
    a repetition whose class contains the line feed stops inside [v], a
    single character at the end of [v] is not a line feed. *)
Fixpoint local (its : list item) (v : list ascii) : Prop :=
  match its with
  | [] => True
  | Bol :: r | Eol :: r | Mark _ :: r => local r v
  | One k :: r =>
      match v with
      | x :: v' => cls_ok k x = true -> local r v'
      | [] => cls_ok k "010"%char = false
      end
  | Rep g m k :: r =>
      (cls_ok k "010"%char = true -> run k v < List.length v) /\
      (forall j, m <= j <= run k v -> local r (skipn j v))
  end.

(** Items whose classes all exclude the line feed are local on any text. *)
Fixpoint nl_free (its : list item) : bool :=
  match its with
  | [] => true
  | One k :: r | Rep _ _ k :: r => negb (cls_ok k "010"%char) && nl_free r
  | _ :: r => nl_free r
  end.

(** What the matches of one line, taken alone, contribute. *)
Definition line_captures (its : list item) (l : list ascii) : list (list ascii * list ascii) :=
  match mtch its true l with
  | Some (_, _, ms) => [extract ms]
  | None => []
  end.

(** A line made of an entry header, letters, digits and ['*'], followed by
    whitespace only: the entry regex's [\s+] would run past its end. *)
Definition entry_header_then_blank (l : list ascii) : Prop :=
  exists a d w, l = a ++ d ++ "*"%char :: w /\ Forall (fun c => is_alpha c = true) a /\
                d <> [] /\ Forall (fun c => is_digit c = true) d /\
                Forall (fun c => is_space c = true) w.

(** A line made of an option key and [':'], followed by whitespace only. *)
Definition option_key_then_blank (l : list ascii) : Prop :=
  exists a w, l = a ++ ":"%char :: w /\ a <> [] /\ Forall (fun c => is_alpha c = true) a /\
              Forall (fun c => is_space c = true) w.

(** What one target match contributes to the catalog. *)
Definition target_of (idn : list ascii * list ascii) : list BootTarget :=
  let (idtxt, nm) := idn in
  match parse_u16 idtxt with Some i => [mkTarget i nm] | None => [] end.

(** The value of the last pair with key [key], if any. *)
Definition last_value (key : list ascii) (kvs : list (list ascii * list ascii))
  : option (list ascii) :=
  option_map snd (hd_error (filter (fun kv => str_eqb (fst kv) key) (rev kvs))).

(** Entries one line produces when matched on its own. *)
Definition entry_of_line (l : list ascii) : list BootTarget :=
  flat_map target_of (line_captures regex_targets l).

(** A line whose last character is neither whitespace nor [stop] cannot end
    in [stop] followed by whitespace only. *)
Definition line_end_ok (stop : ascii) (l : list ascii) : bool :=
  match rev l with
  | [] => true
  | c :: _ => negb (is_space c) && negb (Ascii.eqb c stop)
  end.

(** The value an option match contributes to [current] or [next]. *)
Definition option_value (v : list ascii) : N := unwrap_or (parse_u16 v) 1%N.

(** Keys and values the option regex gives on each line matched on its own. *)
Definition option_lines (raw : list ascii) : list (list ascii * list ascii) :=
  flat_map (line_captures regex_options) (lines raw).

(** A sample [efibootmgr] listing. *)
Definition sample_listing : list ascii :=
  txt "BootCurrent: 0003" ++ "010"%char ::
  txt "BootNext: 0007" ++ "010"%char ::
  txt "Timeout: 1 seconds" ++ "010"%char ::
  txt "BootOrder: 0003,0000,70000" ++ "010"%char ::
  txt "Boot0000* Linux" ++ tab :: txt "HD(1,GPT)" ++ "010"%char ::
  txt "Boot0003* Windows Boot Manager" ++ tab :: txt "HD(2,GPT)" ++ "010"%char ::
  txt "Boot70000* Too big" ++ tab :: txt "x" ++ "010"%char ::
  txt "Boot0004  Inactive" ++ tab :: txt "y".

(** A text whose first line is an entry header followed by a blank, the
    second a tab and a name. *)
Definition spanning_entry_text : list ascii :=
  txt "Boot0001* " ++ ["010"%char; tab; "x"%char].

Definition bad_next_listing : list ascii :=
  txt "BootNext: 0007" ++ "010"%char :: txt "BootNext: abc".

Definition spanning_option_text : list ascii :=
  txt "X:" ++ "010"%char :: txt "BootCurrent: 3".

Definition three_targets : list BootTarget :=
  [mkTarget 0 (txt "a"); mkTarget 1 (txt "b"); mkTarget 2 (txt "c")].

Definition quit_key : Tick := TickEvent (EvKey (mkKey (KChar "q"%char) Press false)).

Definition key_tick (c : KeyCode) (kind : KeyEventKind) : Tick :=
  TickEvent (EvKey (mkKey c kind false)).

(** Every command succeeds. *)
Definition all_succeed : Cmd -> Status := fun _ => Exited (Some 0%Z).

(** [shutdown] exits with code 1, every other command succeeds. *)
Definition shutdown_fails : Cmd -> Status :=
  fun c => if str_eqb (program c) (txt "shutdown") then Exited (Some 1%Z) else Exited (Some 0%Z).

Definition list_args : Arguments := mkArgs (Some true) None None.
Definition reboot_linux_args : Arguments := mkArgs (Some false) None (Some (txt "Lin")).

(** * Properties *)

(** ** Helper facts *)

Lemma find_some_first {A} (f : A -> bool) (l : list A) (x : A) :
  find f l = Some x ->
  exists pre post, l = pre ++ x :: post /\ f x = true /\ Forall (fun u => f u = false) pre.
Proof.
  induction l as [|y l IH]; simpl; [discriminate|].
  case_eq (f y); intros Hy.
  - intros [= <-]. exists [], l. auto.
  - intros Hf. destruct (IH Hf) as (pre & post & -> & Hx & Hpre).
    exists (y :: pre), post. auto.
Qed.

Lemma find_none_iff {A} (f : A -> bool) (l : list A) :
  find f l = None <-> Forall (fun u => f u = false) l.
Proof.
  induction l as [|y l IH]; simpl.
  - split; auto.
  - case_eq (f y); intros Hy.
    + split; [discriminate|]. intros H. inversion H; congruence.
    + rewrite IH. split; [intros H; constructor; auto | intros H; inversion H; auto].
Qed.

Lemma starts_with_spec (s p : list ascii) :
  starts_with s p = true <-> exists r, s = p ++ r.
Proof.
  revert s. induction p as [|y p IH]; intros s; simpl.
  - split; [intros _; exists s; reflexivity | reflexivity].
  - destruct s as [|x s].
    + split; [discriminate|]. intros [r Hr]. discriminate.
    + rewrite andb_true_iff, Ascii.eqb_eq, IH. split.
      * intros [-> [r ->]]. eauto.
      * intros [r [= -> ->]]. eauto.
Qed.

Lemma N_eqb_eq_bool (a b : N) : N.eqb a b = false <-> a <> b.
Proof. rewrite N.eqb_neq. tauto. Qed.

(** ** EntryMatcher *)

(** C6: a query that parses as a [u16] is matched against ids only (the first
    entry with that id, none if there is none, whatever the names); any other
    query is matched as an exact, case-sensitive prefix of the names (the
    first such entry, none if there is none). *)
Theorem lookup_id_or_prefix (bt : BootTargets) (q : list ascii) :
  match parse_u16 q with
  | Some n =>
      (lookup bt q = None <-> Forall (fun u => id u <> n) (targets bt)) /\
      (forall t, lookup bt q = Some t ->
         exists pre post, targets bt = pre ++ t :: post /\ id t = n /\
                          Forall (fun u => id u <> n) pre)
  | None =>
      (lookup bt q = None <->
         Forall (fun u => ~ exists r, name u = q ++ r) (targets bt)) /\
      (forall t, lookup bt q = Some t ->
         exists pre post, targets bt = pre ++ t :: post /\
                          (exists r, name t = q ++ r) /\
                          Forall (fun u => ~ exists r, name u = q ++ r) pre)
  end.
Proof.
  unfold lookup. destruct (parse_u16 q) as [n|]; split.
  - rewrite find_none_iff. split; apply Forall_impl; intros u; rewrite N_eqb_eq_bool; auto.
  - intros t Ht. destruct (find_some_first _ _ _ Ht) as (pre & post & Hl & Hx & Hpre).
    exists pre, post. split; [exact Hl|]. split; [apply N.eqb_eq; exact Hx|].
    revert Hpre. apply Forall_impl. intros u. rewrite N_eqb_eq_bool. auto.
  - rewrite find_none_iff. split; apply Forall_impl; intros u.
    + intros H. rewrite <- starts_with_spec. congruence.
    + rewrite <- starts_with_spec. destruct (starts_with (name u) q); tauto.
  - intros t Ht. destruct (find_some_first _ _ _ Ht) as (pre & post & Hl & Hx & Hpre).
    exists pre, post. split; [exact Hl|]. split; [apply starts_with_spec; exact Hx|].
    revert Hpre. apply Forall_impl. intros u H. rewrite <- starts_with_spec. congruence.
Qed.

(** C10: the empty query does not parse as a number, every name starts with
    it, so [lookup] returns the first entry of the catalog, and none for an
    empty catalog. *)
Theorem lookup_empty_query (bt : BootTargets) :
  parse_u16 [] = None /\ lookup bt [] = hd_error (targets bt).
Proof.
  split; [reflexivity|]. unfold lookup. simpl.
  destruct (targets bt); reflexivity.
Qed.

(** ** SelectionController *)

(** A selection the loop holds when a key is handled has just been through
    [render_list]: for a valid index it is unchanged. *)
Lemma render_list_valid (ts : list BootTarget) (i : N) :
  (i < N.of_nat (List.length ts))%N -> render_list (List.length ts) (Some i) = Some i.
Proof.
  intros H. unfold render_list.
  destruct (Nat.eqb_spec (List.length ts) 0) as [E|E]; [rewrite E in H; simpl in H; lia|].
  destruct (N.leb_spec (N.of_nat (List.length ts)) i); [lia | reflexivity].
Qed.

(** C7: in a catalog of [n] entries ([n] is the length of a [Vec], so at
    most [usize::MAX]), with a valid selected index [i], the selection seen
    by the next round of the loop, after the list is drawn, is: for Down [0]
    when [i = n-1] and [i+1] otherwise; for Up [n-1] when [i = 0] and [i-1]
    otherwise; [0] for Home; [n-1] for End. *)
Theorem navigation_wraps (ts : list BootTarget) (i : N) (a : ChosenAction) (ctrl : bool)
  (Hlen : (N.of_nat (List.length ts) <= usize_max)%N)
  (Hi : (i < N.of_nat (List.length ts))%N) :
  let n := N.of_nat (List.length ts) in
  (exists s, handle_key ts (Some i) a (mkKey KDown Press ctrl) = Continue s /\
     render_list (List.length ts) s = Some (if (i =? n - 1)%N then 0%N else (i + 1)%N)) /\
  (exists s, handle_key ts (Some i) a (mkKey KUp Press ctrl) = Continue s /\
     render_list (List.length ts) s = Some (if (i =? 0)%N then (n - 1)%N else (i - 1)%N)) /\
  (exists s, handle_key ts (Some i) a (mkKey KHome Press ctrl) = Continue s /\
     render_list (List.length ts) s = Some 0%N) /\
  (exists s, handle_key ts (Some i) a (mkKey KEnd Press ctrl) = Continue s /\
     render_list (List.length ts) s = Some (n - 1)%N).
Proof.
  intros n. subst n.
  assert (Hn0 : Nat.eqb (List.length ts) 0 = false)
    by (apply Nat.eqb_neq; intros E; rewrite E in Hi; simpl in Hi; lia).
  assert (Hsub : usize_sub (N.of_nat (List.length ts)) 1 = Some (N.of_nat (List.length ts) - 1)%N)
    by (unfold usize_sub; destruct (N.leb_spec 1 (N.of_nat (List.length ts))); [reflexivity | lia]).
  unfold handle_key; simpl. rewrite Hsub.
  repeat split.
  - eexists; split; [reflexivity|]. unfold render_list, select_first, select_next.
    rewrite Hn0.
    destruct (N.eqb_spec i (N.of_nat (List.length ts) - 1)) as [E|E].
    + destruct (N.leb_spec (N.of_nat (List.length ts) - 1) i); [|lia].
      destruct (N.leb_spec (N.of_nat (List.length ts)) 0); [lia|reflexivity].
    + destruct (N.leb_spec (N.of_nat (List.length ts) - 1) i); [lia|].
      rewrite N.min_l by (unfold usize_max in *; lia).
      destruct (N.leb_spec (N.of_nat (List.length ts)) (i + 1)); [lia|reflexivity].
  - eexists; split; [reflexivity|]. unfold render_list, select_last, select_previous.
    rewrite Hn0.
    destruct (N.eqb_spec i 0) as [E|E].
    + destruct (N.leb_spec i 0); [|lia].
      unfold usize_max in *.
      destruct (N.leb_spec (N.of_nat (List.length ts)) 18446744073709551615%N); [|lia].
      reflexivity.
    + destruct (N.leb_spec i 0); [lia|].
      destruct (N.leb_spec (N.of_nat (List.length ts)) (i - 1)); [lia|reflexivity].
  - eexists; split; [reflexivity|]. unfold render_list, select_first. rewrite Hn0.
    destruct (N.leb_spec (N.of_nat (List.length ts)) 0); [lia|reflexivity].
  - eexists; split; [reflexivity|]. unfold render_list, select_last. rewrite Hn0.
    unfold usize_max in *.
    destruct (N.leb_spec (N.of_nat (List.length ts)) 18446744073709551615%N); [|lia].
    reflexivity.
Qed.

(** C8: Enter always ends the loop ([Break]); a valid selected index
    makes the action [RebootTo] of that entry, any other selection leaves the
    action as it was.  [n] does the same with [SetNext]. *)
Theorem enter_and_n_act (ts : list BootTarget) (sel : option N) (a : ChosenAction)
  (ctrl : bool) :
  (forall mk k, (k = KEnter /\ mk = RebootTo) \/ (k = KChar "n"%char /\ mk = SetNext) ->
   (forall i, sel = Some i -> (i < N.of_nat (List.length ts))%N ->
      exists t, nth_error ts (N.to_nat i) = Some t /\
                handle_key ts sel a (mkKey k Press ctrl) = Break (mk t)) /\
   ((forall i, sel = Some i -> (N.of_nat (List.length ts) <= i)%N) ->
      handle_key ts sel a (mkKey k Press ctrl) = Break a)).
Proof.
  intros mk k Hk.
  assert (Hkey : handle_key ts sel a (mkKey k Press ctrl) = Break (chosen ts mk sel a)).
  { destruct Hk as [[-> ->] | [-> ->]]; unfold handle_key; simpl; reflexivity. }
  rewrite Hkey. split.
  - intros i -> Hi. unfold chosen.
    destruct (nth_error ts (N.to_nat i)) as [t|] eqn:E.
    + exists t. split; [reflexivity|].
      destruct (N.ltb_spec i (N.of_nat (List.length ts))); [reflexivity | lia].
    + apply nth_error_None in E. lia.
  - intros Hsel. unfold chosen. destruct sel as [i|]; [|reflexivity].
    specialize (Hsel i eq_refl).
    destruct (N.ltb_spec i (N.of_nat (List.length ts))); [lia | reflexivity].
Qed.

(** C3 (the defect): with no entries, Down computes [item_count - 1] on
    [usize] with [item_count = 0]; the subtraction underflows, which panics
    in a debug build, whatever the selection is. *)
Theorem empty_catalog_down_underflows (sel : option N) (a : ChosenAction) (ctrl : bool) :
  usize_sub (N.of_nat (List.length (@nil BootTarget))) 1 = None /\
  handle_key [] sel a (mkKey KDown Press ctrl) = Panic.
Proof. split; reflexivity. Qed.

(** ** ActionDispatcher *)

(** The launch-error path of [reboot_to] stops before [shutdown]. *)
Lemma reboot_to_launch_error_stops (run : Cmd -> Status) (t : BootTarget) :
  run (set_next_boot t) = LaunchError -> invoked (reboot_to run t) = [set_next_boot t].
Proof. intros H. unfold reboot_to. rewrite H. reflexivity. Qed.

(** C1 (the defect): when [efibootmgr --bootnext] is launched but exits
    unsuccessfully, [reboot_to] prints the exit code and still runs
    [shutdown -r now]: the non-zero branch lacks the [return] of the
    launch-error branch. *)
Theorem reboot_to_reboots_after_failed_set_next (run : Cmd -> Status) (t : BootTarget)
  (c : option Z) (Hset : run (set_next_boot t) = Exited c)
  (Hfail : success (Exited c) = false) :
  invoked (reboot_to run t) = [set_next_boot t; shutdown_reboot].
Proof. unfold reboot_to. rewrite Hset. reflexivity. Qed.

(** Decimal digits: the facts about [fmt_pad4] that the argument needs. *)
Lemma digit_char_ok (d : N) :
  (d < 10)%N -> is_digit (digit_char d) = true /\ digit_val (digit_char d) = d /\
                Ascii.eqb (digit_char d) "+"%char = false.
Proof.
  intros H.
  assert (d = 0 \/ d = 1 \/ d = 2 \/ d = 3 \/ d = 4 \/ d = 5 \/ d = 6 \/ d = 7 \/
          d = 8 \/ d = 9)%N as Hd by lia.
  repeat destruct Hd as [-> | Hd]; [..| subst d]; repeat split; reflexivity.
Qed.

(** [lia] with the quotients and remainders of [N] taken as atoms. *)
Ltac abstract_divmod :=
  repeat match goal with
  | H : context [(?a / ?b)%N] |- _ =>
      let q := fresh "q" in set (q := (a / b)%N) in *; clearbody q
  | |- context [(?a / ?b)%N] =>
      let q := fresh "q" in set (q := (a / b)%N) in *; clearbody q
  | H : context [(?a mod ?b)%N] |- _ =>
      let r := fresh "r" in set (r := (a mod b)%N) in *; clearbody r
  | |- context [(?a mod ?b)%N] =>
      let r := fresh "r" in set (r := (a mod b)%N) in *; clearbody r
  end.

Ltac nlia := abstract_divmod; lia.

Lemma div_mod_10 (n : N) : n = (10 * (n / 10) + n mod 10)%N /\ (n mod 10 < 10)%N.
Proof. split; [apply N.div_mod; lia | apply N.mod_lt; lia]. Qed.

Lemma parse_digits_app (acc : N) (l1 l2 : list ascii) :
  parse_digits acc (l1 ++ l2) =
  match parse_digits acc l1 with Some v => parse_digits v l2 | None => None end.
Proof.
  revert acc. induction l1 as [|c l1 IH]; intros acc; simpl; [reflexivity|].
  destruct (is_digit c); [|reflexivity].
  destruct (N.leb _ 65535); [apply IH | reflexivity].
Qed.

Lemma parse_digits_zeros (k : nat) (l : list ascii) :
  parse_digits 0 (repeat "0"%char k ++ l) = parse_digits 0 l.
Proof. induction k as [|k IH]; [reflexivity | exact IH]. Qed.

Lemma dec_rev_digits (f : nat) (n : N) : Forall (fun c => is_digit c = true) (dec_rev f n).
Proof.
  revert n. induction f as [|f IH]; intros n; simpl; [constructor|].
  constructor; [apply digit_char_ok, div_mod_10|].
  destruct (n / 10 =? 0)%N; [constructor | apply IH].
Qed.

Lemma parse_digits_digit (acc : N) (d : N) (l : list ascii) :
  (d < 10)%N ->
  parse_digits acc (digit_char d :: l) =
  if (acc * 10 + d <=? 65535)%N then parse_digits (acc * 10 + d) l else None.
Proof.
  intros H. destruct (digit_char_ok d H) as (Hdig & Hval & _).
  cbn [parse_digits]. rewrite Hdig, Hval. reflexivity.
Qed.

Lemma dec_rev_S (f : nat) (n : N) :
  dec_rev (S f) n =
  digit_char (n mod 10)%N :: (if (n / 10 =? 0)%N then [] else dec_rev f (n / 10)%N).
Proof. reflexivity. Qed.

Lemma dec_rev_value (f : nat) (n : N) :
  (n < 10 ^ N.of_nat (S f))%N -> (n <= 65535)%N ->
  parse_digits 0 (rev (dec_rev (S f) n)) = Some n.
Proof.
  revert n. induction f as [|f IH]; intros n Hf Hn;
    destruct (div_mod_10 n) as [Hdm Hr].
  - change (10 ^ N.of_nat 1)%N with 10%N in Hf.
    cbn [dec_rev]. destruct (n / 10 =? 0)%N; cbn [rev app];
    rewrite parse_digits_digit by exact Hr.
    all: destruct (N.leb_spec (0 * 10 + n mod 10) 65535); [|nlia].
    all: cbn [parse_digits]; f_equal; nlia.
  - rewrite dec_rev_S. cbn [rev].
    destruct (N.eqb_spec (n / 10) 0) as [E|E].
    + cbn [rev app]. rewrite parse_digits_digit by exact Hr.
      destruct (N.leb_spec (0 * 10 + n mod 10) 65535); [|nlia].
      cbn [parse_digits]. f_equal. nlia.
    + rewrite parse_digits_app, IH.
      * rewrite parse_digits_digit by exact Hr.
        destruct (N.leb_spec (n / 10 * 10 + n mod 10) 65535); [|nlia].
        cbn [parse_digits]. f_equal. nlia.
      * rewrite Nat2N.inj_succ, N.pow_succ_r' in Hf. nlia.
      * nlia.
Qed.

Lemma dec_rev_length_le (k : nat) (f : nat) (n : N) :
  (n < 10 ^ N.of_nat (S k))%N -> List.length (dec_rev f n) <= S k.
Proof.
  revert f n. induction k as [|k IH]; intros f n Hn; destruct f as [|f]; simpl; try nlia;
    destruct (div_mod_10 n) as [Hdm Hr].
  - simpl in Hn. replace (n / 10)%N with 0%N by nlia. simpl. nlia.
  - destruct (n / 10 =? 0)%N; simpl; [nlia|].
    apply le_n_S, IH. rewrite Nat2N.inj_succ, N.pow_succ_r' in Hn. nlia.
Qed.

Lemma dec_rev_length_ge (k : nat) (f : nat) (n : N) :
  (10 ^ N.of_nat k <= n)%N -> k < f -> S k <= List.length (dec_rev f n).
Proof.
  revert f n. induction k as [|k IH]; intros f n Hn Hf; destruct f as [|f]; simpl; try nlia;
    destruct (div_mod_10 n) as [Hdm Hr].
  destruct (N.eqb_spec (n / 10) 0) as [E|E].
  - rewrite Nat2N.inj_succ, N.pow_succ_r' in Hn.
    pose proof (N.pow_nonzero 10 (N.of_nat k)). nlia.
  - simpl. apply le_n_S, IH; [|nlia].
    rewrite Nat2N.inj_succ, N.pow_succ_r' in Hn. nlia.
Qed.

(** C9 (as the code has it): [SetNext] runs [efibootmgr] with two
    arguments, the flag [--bootnext] and the id in decimal, left-padded with
    zeros to four digits: exactly four digits below 10000, five digits (no
    padding) from 10000 on. *)
Theorem set_next_boot_args (t : BootTarget) (Hid : (id t < 65536)%N) :
  program (set_next_boot t) = txt "efibootmgr" /\
  args (set_next_boot t) = [txt "--bootnext"; fmt_pad4 (id t)] /\
  parse_u16 (fmt_pad4 (id t)) = Some (id t) /\
  Forall (fun c => is_digit c = true) (fmt_pad4 (id t)) /\
  List.length (fmt_pad4 (id t)) = (if (id t <? 10000)%N then 4 else 5).
Proof.
  assert (Hdigits : Forall (fun c => is_digit c = true) (fmt_pad4 (id t))).
  { unfold fmt_pad4, dec. apply Forall_app. split.
    - apply Forall_forall. intros c Hc. apply repeat_spec in Hc. subst c. reflexivity.
    - apply Forall_rev, dec_rev_digits. }
  assert (Hlen : List.length (fmt_pad4 (id t)) =
                 4 - List.length (dec_rev 20 (id t)) + List.length (dec_rev 20 (id t))).
  { unfold fmt_pad4, dec. rewrite length_app, repeat_length, length_rev. reflexivity. }
  split; [reflexivity|]. split; [reflexivity|]. split; [|split; [exact Hdigits|]].
  - destruct (fmt_pad4 (id t)) as [|c r] eqn:E.
    + change (List.length (@nil ascii)) with 0 in Hlen. lia.
    + inversion Hdigits as [|? ? Hc _]; subst.
      assert (Hplus : Ascii.eqb c "+"%char = false).
      { destruct (Ascii.eqb_spec c "+"%char); [subst c; discriminate | reflexivity]. }
      unfold parse_u16. rewrite Hplus, <- E.
      unfold fmt_pad4, dec. rewrite parse_digits_zeros.
      apply dec_rev_value; [|lia].
      apply (N.lt_le_trans _ 65536); [lia|]. vm_compute. discriminate.
  - rewrite Hlen. destruct (N.ltb_spec (id t) 10000).
    + assert (List.length (dec_rev 20 (id t)) <= 4)
        by (apply (dec_rev_length_le 3); exact H).
      lia.
    + assert (5 <= List.length (dec_rev 20 (id t)))
        by (apply (dec_rev_length_ge 4); [exact H | lia]).
      assert (List.length (dec_rev 20 (id t)) <= 5)
        by (apply (dec_rev_length_le 4); simpl; lia).
      lia.
Qed.

(** C9 as stated fails: the flag and the id are two arguments, not one,
    and the id 10000 is printed with five digits. *)
Lemma set_next_boot_not_single_argument :
  ~ (exists a, args (set_next_boot (mkTarget 7 [])) = [a]) /\
  List.length (fmt_pad4 10000) = 5.
Proof.
  split; [|reflexivity].
  intros [a Ha]. simpl in Ha. discriminate.
Qed.

(** ** Terminal mode around the loop *)

(** C2 (as the code has it): once the terminal is set up, a loop that
    ends through a key (quit, Enter, [n]) leaves the alternate screen, then
    disables raw mode if that succeeded, and only then dispatches the
    action; a loop ended by a draw, poll or read error returns the error at
    once through [?], leaving the alternate screen and raw mode on. *)
Theorem tui_selection_cleanup (ok : Op -> bool) (run : Cmd -> Status)
  (bt : BootTargets) (ticks : list Tick)
  (H1 : ok OpEnterAlternateScreen = true) (H2 : ok OpEnableRawMode = true)
  (H3 : ok OpTerminalNew = true) (H4 : ok OpClear = true) :
  (forall a, tui_loop (targets bt) (Some 0%N) ANone ticks = ExitBreak a ->
     tui_selection ok run bt ticks normal_term =
       if ok OpLeaveAlternateScreen then
         if ok OpDisableRawMode then (Ok (dispatch run a), normal_term)
         else (Err, mkTerm false true)
       else (Err, mkTerm true true)) /\
  (tui_loop (targets bt) (Some 0%N) ANone ticks = ExitIoError ->
     tui_selection ok run bt ticks normal_term = (Err, mkTerm true true)).
Proof.
  unfold tui_selection, bind, io, loop_m, ret.
  rewrite H1, H2, H3, H4. cbn [op_effect alternate raw_mode normal_term].
  split.
  - intros a Ha. rewrite Ha.
    destruct (ok OpLeaveAlternateScreen), (ok OpDisableRawMode); reflexivity.
  - intros Ha. rewrite Ha. reflexivity.
Qed.

(** C2 as stated fails: a failing [terminal.draw] in the first round makes
    [tui_selection] return its error with the terminal still in the
    alternate screen and in raw mode. *)
Lemma tui_draw_error_leaves_raw_mode :
  tui_selection (fun _ => true) (fun _ => Exited (Some 0%Z)) (mkTargets [] None None)
    [TickDrawError] normal_term = (Err, mkTerm true true) /\
  mkTerm true true <> normal_term.
Proof. split; [reflexivity | discriminate]. Qed.

(** ** EntryParser: the regex search, line by line *)

Lemma lines_not_nil (s : list ascii) : lines s <> [].
Proof.
  induction s as [|c s IH]; simpl; [discriminate|].
  destruct (is_nl c); [discriminate|]. destruct (lines s); discriminate.
Qed.

Lemma lines_join (s : list ascii) : join (lines s) = s.
Proof.
  induction s as [|c s IH]; simpl; [reflexivity|].
  destruct (is_nl c) eqn:Hc.
  - assert (c = "010"%char) by (apply Ascii.eqb_eq; exact Hc). subst c.
    destruct (lines s) as [|l ls] eqn:E; [destruct (lines_not_nil s E)|].
    simpl. rewrite <- IH. reflexivity.
  - destruct (lines s) as [|l ls] eqn:E; [destruct (lines_not_nil s E)|].
    destruct ls as [|l' ls']; simpl in *; rewrite IH; reflexivity.
Qed.

Lemma lines_no_nl (s : list ascii) : Forall no_nl (lines s).
Proof.
  induction s as [|c s IH]; simpl; [repeat constructor|].
  destruct (is_nl c) eqn:Hc; [constructor; [constructor | exact IH]|].
  destruct (lines s) as [|l ls]; [repeat constructor; exact Hc|].
  inversion IH; subst. constructor; [constructor; assumption | assumption].
Qed.

Lemma lines_length (s : list ascii) : List.length (lines s) <= S (List.length s).
Proof.
  induction s as [|c s IH]; simpl; [lia|].
  destruct (is_nl c); simpl; [lia|]. destruct (lines s); simpl in *; lia.
Qed.

Lemma run_le (k : cls) (s : list ascii) : run k s <= List.length s.
Proof. induction s as [|x s IH]; simpl; [lia|]. destruct (cls_ok k x); simpl; lia. Qed.

Lemma run_app (k : cls) (v t : list ascii) :
  no_nl v -> nl_start t -> (cls_ok k "010"%char = true -> run k v < List.length v) ->
  run k (v ++ t) = run k v.
Proof.
  intros Hv Ht Hk. induction v as [|x v IH]; simpl in *.
  - destruct (cls_ok k "010"%char) eqn:E; [specialize (Hk eq_refl); lia|].
    destruct Ht as [-> | [t' ->]]; simpl; [reflexivity|]. rewrite E. reflexivity.
  - inversion Hv; subst. destruct (cls_ok k x); [|reflexivity].
    f_equal. apply IH; [assumption|]. intros E. specialize (Hk E). simpl in Hk. lia.
Qed.

Lemma in_order (g : greed) (m n j : nat) : In j (order g m n) -> m <= j <= n.
Proof.
  assert (Hs : In j (seq m (S n - m)) -> m <= j <= n) by (rewrite in_seq; lia).
  destruct g; simpl; [|exact Hs].
  intros H. apply Hs. rewrite in_rev. exact H.
Qed.

Lemma first_some_lift {A} (f g : A -> option (bool * list ascii * marks)) (t : list ascii)
  (l : list A) :
  (forall x, In x l -> f x = option_map (lift t) (g x)) ->
  first_some f l = option_map (lift t) (first_some g l).
Proof.
  induction l as [|x l IH]; intros H; simpl; [reflexivity|].
  rewrite (H x (or_introl eq_refl)).
  destruct (g x); simpl; [reflexivity|]. apply IH. intros y Hy. apply H. right. exact Hy.
Qed.

Lemma bol_after_app (b : bool) (v t : list ascii) (j : nat) :
  j <= List.length v -> bol_after b (v ++ t) j = bol_after b v j.
Proof.
  intros H. destruct j as [|j]; simpl; [reflexivity|]. rewrite app_nth1 by lia. reflexivity.
Qed.

Lemma skipn_no_nl (j : nat) (v : list ascii) : no_nl v -> no_nl (skipn j v).
Proof.
  intros H. revert j. induction H as [|x v Hx Hv IH]; intros [|j]; simpl;
    try constructor; auto.
Qed.

Lemma mtch_local (its : list item) : forall (v t : list ascii) (b : bool),
  no_nl v -> nl_start t -> local its v ->
  mtch its b (v ++ t) = option_map (lift t) (mtch its b v).
Proof.
  induction its as [|it r IH]; intros v t b Hv Ht Hl; [reflexivity|].
  destruct it as [| |k|g m k|n]; simpl in Hl |- *.
  - destruct b; [apply IH; assumption | reflexivity].
  - assert (E : at_eol (v ++ t) = at_eol v).
    { destruct v as [|x v]; [destruct Ht as [-> | [t' ->]]; reflexivity | reflexivity]. }
    rewrite E. destruct (at_eol v); [apply IH; assumption | reflexivity].
  - destruct v as [|x v].
    + destruct Ht as [-> | [t' ->]]; simpl; [reflexivity|]. rewrite Hl. reflexivity.
    + inversion Hv; subst. simpl.
      destruct (cls_ok k x) eqn:E; [apply IH; auto | reflexivity].
  - destruct Hl as [Hrun Hrest]. rewrite (run_app k v t Hv Ht Hrun).
    apply first_some_lift. intros j Hj. apply in_order in Hj.
    pose proof (run_le k v).
    rewrite bol_after_app by lia. rewrite skipn_app.
    replace (j - List.length v) with 0 by lia. simpl (skipn 0 t).
    apply IH; [apply skipn_no_nl; exact Hv | exact Ht | apply Hrest; lia].
  - rewrite (IH v t b Hv Ht Hl). destruct (mtch r b v) as [[[b' s'] ms]|]; reflexivity.
Qed.

Lemma nl_free_local (its : list item) : forall v, nl_free its = true -> local its v.
Proof.
  induction its as [|it r IH]; intros v H; simpl; [exact I|].
  destruct it as [| |k|g m k|n]; simpl in H; try (apply IH; exact H).
  - apply andb_true_iff in H as [Hk H].
    destruct v as [|x v]; [destruct (cls_ok k "010"%char); [discriminate | reflexivity]|].
    intros _. apply IH. exact H.
  - apply andb_true_iff in H as [Hk H]. split.
    + intros E. rewrite E in Hk. discriminate.
    + intros j _. apply IH. exact H.
Qed.

Lemma first_some_some {A B} (f : A -> option B) (l : list A) (y : B) :
  first_some f l = Some y -> exists x, In x l /\ f x = Some y.
Proof.
  induction l as [|x l IH]; simpl; [discriminate|].
  destruct (f x) eqn:E.
  - intros [= <-]. exists x. auto.
  - intros H. destruct (IH H) as (z & Hz & Hf). exists z. auto.
Qed.

Lemma mtch_suffix (its : list item) : forall b s b' r ms,
  mtch its b s = Some (b', r, ms) -> exists p, s = p ++ r.
Proof.
  induction its as [|it its IH]; intros b s b' r ms H; simpl in H.
  - injection H as _ <- _. exists []. reflexivity.
  - destruct it as [| |k|g m k|n].
    + destruct b; [exact (IH _ _ _ _ _ H) | discriminate].
    + destruct (at_eol s); [exact (IH _ _ _ _ _ H) | discriminate].
    + destruct s as [|x s]; [discriminate|]. destruct (cls_ok k x); [|discriminate].
      destruct (IH _ _ _ _ _ H) as [p ->]. exists (x :: p). reflexivity.
    + destruct (first_some_some _ _ _ H) as (j & _ & Hj).
      destruct (IH _ _ _ _ _ Hj) as [p Hp]. exists (firstn j s ++ p).
      rewrite <- app_assoc, <- Hp. symmetry. apply firstn_skipn.
    + destruct (mtch its b s) as [[[b1 s1] ms1]|] eqn:E; [|discriminate].
      injection H as -> -> _. exact (IH _ _ _ _ _ E).
Qed.

Lemma mtch_eol (its : list item) : forall b s b' r ms,
  mtch (its ++ [Eol]) b s = Some (b', r, ms) -> at_eol r = true.
Proof.
  induction its as [|it its IH]; intros b s b' r ms H; simpl in H.
  - destruct (at_eol s) eqn:E; [injection H as _ <- _; exact E | discriminate].
  - destruct it as [| |k|g m k|n].
    + destruct b; [exact (IH _ _ _ _ _ H) | discriminate].
    + destruct (at_eol s); [exact (IH _ _ _ _ _ H) | discriminate].
    + destruct s as [|x s]; [discriminate|]. destruct (cls_ok k x); [|discriminate].
      exact (IH _ _ _ _ _ H).
    + destruct (first_some_some _ _ _ H) as (j & _ & Hj). exact (IH _ _ _ _ _ Hj).
    + destruct (mtch (its ++ [Eol]) b s) as [[[b1 s1] ms1]|] eqn:E; [|discriminate].
      injection H as -> -> _. exact (IH _ _ _ _ _ E).
Qed.

Lemma mtch_ends_line (its : list item) (b : bool) (l : list ascii) b' r ms :
  no_nl l -> mtch (its ++ [Eol]) b l = Some (b', r, ms) -> r = [].
Proof.
  intros Hl H. pose proof (mtch_eol _ _ _ _ _ _ H) as He.
  destruct (mtch_suffix _ _ _ _ _ _ H) as [p ->].
  apply Forall_app in Hl as [_ Hr].
  destruct r as [|x r]; [reflexivity|]. inversion Hr; subst. simpl in He. congruence.
Qed.

Lemma assoc_lift (t : list ascii) (n : nat) (ms : marks) :
  assoc n (map (fun '(k, v) => (k, v ++ t)) ms) = option_map (fun v => v ++ t) (assoc n ms).
Proof.
  induction ms as [|[k v] ms IH]; simpl; [reflexivity|].
  destruct (Nat.eqb k n); [reflexivity | exact IH].
Qed.

Lemma cut_lift (a e t : list ascii) : cut (a ++ t) (e ++ t) = cut a e.
Proof.
  unfold cut. rewrite !length_app.
  replace (List.length a + List.length t - (List.length e + List.length t))
    with (List.length a - List.length e) by lia.
  rewrite firstn_app. replace (List.length a - List.length e - List.length a) with 0 by lia.
  simpl. apply app_nil_r.
Qed.

Lemma extract_lift (t : list ascii) (ms : marks) :
  extract (map (fun '(k, v) => (k, v ++ t)) ms) = extract ms.
Proof.
  unfold extract, group. rewrite !assoc_lift.
  destruct (assoc (2 * 1) ms), (assoc (2 * 1 + 1) ms), (assoc (2 * 2) ms), (assoc (2 * 2 + 1) ms);
    simpl; rewrite ?cut_lift; reflexivity.
Qed.

Lemma scan_eq (its : list item) (b : bool) (s : list ascii) :
  scan its b s =
  match mtch its b s with
  | Some res => Some res
  | None => match s with [] => None | x :: s' => scan its (is_nl x) s' end
  end.
Proof. destruct s; reflexivity. Qed.

Lemma line_captures_some (its : list item) (l : list ascii) b r ms :
  mtch its true l = Some (b, r, ms) -> line_captures its l = [extract ms].
Proof. intros E. unfold line_captures. rewrite E. reflexivity. Qed.

Lemma line_captures_none (its : list item) (l : list ascii) :
  mtch its true l = None -> line_captures its l = [].
Proof. intros E. unfold line_captures. rewrite E. reflexivity. Qed.

Section ByLines.
(** A regex anchored at line starts, never matching an empty line or at a
    line feed, and whose matches run to the end of a line. *)
Variable its : list item.
Hypothesis bol_first : forall s, mtch its false s = None.
Hypothesis no_empty : forall b, mtch its b [] = None.
Hypothesis no_nl_start : forall b t, mtch its b ("010"%char :: t) = None.
Hypothesis ends_line : forall b l b' r ms, no_nl l -> mtch its b l = Some (b', r, ms) -> r = [].

Lemma scan_rest (l t : list ascii) :
  no_nl l -> nl_start t ->
  scan its false (l ++ t) = match t with [] => None | _ :: t' => scan its true t' end.
Proof.
  intros Hl Ht. induction Hl as [|x l Hx Hl IH].
  - rewrite scan_eq, bol_first. destruct Ht as [-> | [t' ->]]; reflexivity.
  - change ((x :: l) ++ t) with (x :: (l ++ t)). rewrite scan_eq, bol_first.
    change (scan its (is_nl x) (l ++ t) = match t with [] => None | _ :: t' => scan its true t' end).
    rewrite Hx. exact IH.
Qed.

Lemma scan_line (l t : list ascii) :
  no_nl l -> nl_start t -> local its l ->
  scan its true (l ++ t) =
  match mtch its true l with
  | Some res => Some (lift t res)
  | None => match t with [] => None | _ :: t' => scan its true t' end
  end.
Proof.
  intros Hl Ht Hloc. rewrite scan_eq, (mtch_local its l t true Hl Ht Hloc).
  destruct (mtch its true l) as [res|]; [reflexivity|]. simpl.
  destruct l as [|x l].
  - destruct Ht as [-> | [t' ->]]; reflexivity.
  - inversion Hl; subst.
    change (scan its (is_nl x) (l ++ t) = match t with [] => None | _ :: t' => scan its true t' end).
    rewrite H1. apply scan_rest; assumption.
Qed.

Lemma iter_after_nl (f : nat) (b : bool) (t : list ascii) :
  iter f its b ("010"%char :: t) = iter f its true t.
Proof.
  destruct f as [|f]; [reflexivity|]. cbn [iter].
  rewrite (scan_eq its b), no_nl_start. reflexivity.
Qed.

Lemma iter_nil (f : nat) (b : bool) : iter f its b [] = [].
Proof.
  destruct f as [|f]; [reflexivity|]. cbn [iter].
  rewrite scan_eq, no_empty. reflexivity.
Qed.

Lemma iter_join (ls : list (list ascii)) : forall fuel,
  ls <> [] -> Forall no_nl ls -> Forall (local its) ls -> List.length ls <= fuel ->
  map extract (iter fuel its true (join ls)) = flat_map (line_captures its) ls.
Proof.
  induction ls as [|l ls IH]; intros fuel Hne Hnl Hloc Hlen; [contradiction|].
  inversion Hnl as [|? ? Hl Hls]; inversion Hloc as [|? ? Hll Hlls]; subst.
  destruct fuel as [|f]; [simpl in Hlen; lia|].
  cbn [flat_map].
  destruct ls as [|l2 ls].
  - replace (join [l]) with (l ++ []) by (simpl; apply app_nil_r).
    cbn [iter]. rewrite scan_line by (auto; left; reflexivity).
    destruct (mtch its true l) as [[[b' r] ms]|] eqn:E.
    + rewrite (line_captures_some _ _ _ _ _ E), (ends_line _ _ _ _ _ Hl E).
      simpl. rewrite iter_nil, extract_lift. reflexivity.
    + rewrite (line_captures_none _ _ E). reflexivity.
  - change (join (l :: l2 :: ls)) with (l ++ "010"%char :: join (l2 :: ls)).
    cbn [iter]. rewrite scan_line by (auto; right; eexists; reflexivity).
    destruct (mtch its true l) as [[[b' r] ms]|] eqn:E.
    + rewrite (line_captures_some _ _ _ _ _ E), (ends_line _ _ _ _ _ Hl E).
      simpl. rewrite iter_after_nl, extract_lift.
      f_equal. apply IH; [discriminate | assumption | assumption | simpl in *; lia].
    + rewrite (line_captures_none _ _ E).
      change (map extract (iter (S f) its true (join (l2 :: ls))) =
              flat_map (line_captures its) (l2 :: ls)).
      apply IH; [discriminate | assumption | assumption | simpl in *; lia].
Qed.

Theorem captures_by_lines (raw : list ascii) :
  Forall (local its) (lines raw) ->
  map extract (captures_iter its raw) = flat_map (line_captures its) (lines raw).
Proof.
  intros Hloc. unfold captures_iter. rewrite <- (lines_join raw) at 2.
  apply iter_join; [apply lines_not_nil | apply lines_no_nl | exact Hloc | apply lines_length].
Qed.

End ByLines.

(** *** The two regexes are line-local *)

Lemma run_prefix (k : cls) (s : list ascii) (j : nat) :
  j <= run k s -> Forall (fun c => cls_ok k c = true) (firstn j s).
Proof.
  revert j. induction s as [|x s IH]; intros j Hj; simpl in Hj.
  - rewrite firstn_nil. constructor.
  - destruct j as [|j]; [constructor|]. simpl.
    destruct (cls_ok k x) eqn:E; [|lia]. constructor; [exact E | apply IH; lia].
Qed.

Lemma run_full (k : cls) (s : list ascii) :
  ~ (run k s < List.length s) -> Forall (fun c => cls_ok k c = true) s.
Proof.
  intros H. pose proof (run_le k s).
  rewrite <- (firstn_all s). apply run_prefix. lia.
Qed.

Lemma firstn_nonempty {A} (j : nat) (s : list A) : 1 <= j <= List.length s -> firstn j s <> [].
Proof.
  intros Hj E. apply (f_equal (@List.length A)) in E. rewrite length_firstn in E. simpl in E. lia.
Qed.

Lemma local_targets (l : list ascii) :
  ~ entry_header_then_blank l -> local regex_targets l.
Proof.
  intros Hno. simpl. split; [discriminate|]. intros j Hj. split; [discriminate|].
  intros j' Hj'.
  destruct (skipn j' (skipn j l)) as [|x v] eqn:E; [reflexivity|].
  intros Hx. apply Ascii.eqb_eq in Hx. subst x. split.
  - intros _. destruct (Nat.lt_decidable (run CSpace v) (List.length v)) as [Hlt|Hge];
      [exact Hlt|].
    exfalso. apply Hno. exists (firstn j l), (firstn j' (skipn j l)), v.
    split; [|split; [|split; [|split]]].
    + rewrite <- E, firstn_skipn, firstn_skipn. reflexivity.
    + exact (run_prefix CAlpha l j ltac:(lia)).
    + apply firstn_nonempty. pose proof (run_le CDigit (skipn j l)). lia.
    + exact (run_prefix CDigit (skipn j l) j' ltac:(lia)).
    + exact (run_full CSpace v Hge).
  - intros j'' _.
    exact (nl_free_local [Mark 4; Rep Lazy 0 CNotNL; Mark 5; One (CLit tab);
                          Rep Greedy 0 CNotNL; Eol] _ eq_refl).
Qed.

Lemma local_options (l : list ascii) :
  ~ option_key_then_blank l -> local regex_options l.
Proof.
  intros Hno. simpl. split; [discriminate|]. intros j Hj.
  destruct (skipn j l) as [|x v] eqn:E; [reflexivity|].
  intros Hx. apply Ascii.eqb_eq in Hx. subst x. split.
  - intros _. destruct (Nat.lt_decidable (run CSpace v) (List.length v)) as [Hlt|Hge];
      [exact Hlt|].
    exfalso. apply Hno. exists (firstn j l), v.
    split; [|split; [|split]].
    + rewrite <- E, firstn_skipn. reflexivity.
    + apply firstn_nonempty. pose proof (run_le CAlpha l). lia.
    + exact (run_prefix CAlpha l j ltac:(lia)).
    + exact (run_full CSpace v Hge).
  - intros j' _.
    exact (nl_free_local [Mark 4; Rep Greedy 0 CNotNL; Mark 5; Eol] _ eq_refl).
Qed.

Lemma targets_bol_first : forall s, mtch regex_targets false s = None.
Proof. reflexivity. Qed.
Lemma targets_no_empty : forall b, mtch regex_targets b [] = None.
Proof. intros []; reflexivity. Qed.
Lemma targets_no_nl_start : forall b t, mtch regex_targets b ("010"%char :: t) = None.
Proof. intros [] t; reflexivity. Qed.
Lemma targets_ends_line : forall b l b' r ms,
  no_nl l -> mtch regex_targets b l = Some (b', r, ms) -> r = [].
Proof.
  intros b l b' r ms Hl H.
  exact (mtch_ends_line [Bol; Rep Greedy 0 CAlpha; Mark 2; Rep Greedy 1 CDigit; Mark 3;
    One (CLit "*"%char); Rep Greedy 1 CSpace; Mark 4; Rep Lazy 0 CNotNL;
    Mark 5; One (CLit tab); Rep Greedy 0 CNotNL] b l b' r ms Hl H).
Qed.

Lemma options_bol_first : forall s, mtch regex_options false s = None.
Proof. reflexivity. Qed.
Lemma options_no_empty : forall b, mtch regex_options b [] = None.
Proof. intros []; reflexivity. Qed.
Lemma options_no_nl_start : forall b t, mtch regex_options b ("010"%char :: t) = None.
Proof. intros [] t; reflexivity. Qed.
Lemma options_ends_line : forall b l b' r ms,
  no_nl l -> mtch regex_options b l = Some (b', r, ms) -> r = [].
Proof.
  intros b l b' r ms Hl H.
  exact (mtch_ends_line [Bol; Mark 2; Rep Greedy 1 CAlpha; Mark 3; One (CLit ":"%char);
    Rep Greedy 1 CSpace; Mark 4; Rep Greedy 0 CNotNL; Mark 5] b l b' r ms Hl H).
Qed.

(** *** The parser's two loops *)

Lemma str_eqb_true (a b : list ascii) : str_eqb a b = true -> a = b.
Proof.
  revert b. induction a as [|x a IH]; intros [|y b] H; simpl in H; try discriminate; [reflexivity|].
  apply andb_true_iff in H as [Hx H]. apply Ascii.eqb_eq in Hx. subst y. f_equal. apply IH, H.
Qed.

Lemma fold_push_target (L : list (list ascii * list ascii)) (r : BootTargets) :
  fold_left push_target L r =
  mkTargets (targets r ++ flat_map target_of L) (current r) (next r).
Proof.
  revert r. induction L as [|[i nm] L IH]; intros r; simpl.
  - rewrite app_nil_r. destruct r; reflexivity.
  - rewrite IH. unfold push_target, target_of.
    destruct (parse_u16 i) as [n|]; simpl; [rewrite <- app_assoc|]; reflexivity.
Qed.

Lemma fold_apply_option_targets (L : list (list ascii * list ascii)) (r : BootTargets) :
  targets (fold_left apply_option L r) = targets r.
Proof.
  revert r. induction L as [|[k v] L IH]; intros r; simpl; [reflexivity|].
  rewrite IH. unfold apply_option. repeat destruct (str_eqb _ _); reflexivity.
Qed.

Lemma fold_apply_option_keys (L : list (list ascii * list ascii)) (r : BootTargets) :
  current (fold_left apply_option L r) =
    match last_value (txt "BootCurrent") L with
    | Some v => Some (unwrap_or (parse_u16 v) 1%N) | None => current r end /\
  next (fold_left apply_option L r) =
    match last_value (txt "BootNext") L with
    | Some v => Some (unwrap_or (parse_u16 v) 1%N) | None => next r end.
Proof.
  induction L as [|[k v] L IH] using rev_ind; [split; reflexivity|].
  rewrite fold_left_app. unfold last_value. rewrite rev_app_distr.
  destruct IH as [IHc IHn]. unfold last_value in IHc, IHn.
  remember (fold_left apply_option L r) as r0.
  cbn [fold_left rev app filter fst]. unfold apply_option.
  destruct (str_eqb k (txt "BootCurrent")) eqn:Ec.
  - apply str_eqb_true in Ec. subst k. split; [reflexivity|]. exact IHn.
  - destruct (str_eqb k (txt "BootNext")) eqn:En; split; assumption || reflexivity.
Qed.

Lemma flat_map_flat_map {A B C} (f : B -> list C) (g : A -> list B) (xs : list A) :
  flat_map f (flat_map g xs) = flat_map (fun x => flat_map f (g x)) xs.
Proof.
  induction xs as [|x xs IH]; simpl; [reflexivity|]. rewrite flat_map_app, IH. reflexivity.
Qed.

Lemma targets_by_lines (raw : list ascii) :
  Forall (fun l => ~ entry_header_then_blank l) (lines raw) ->
  map extract (captures_iter regex_targets raw) =
  flat_map (line_captures regex_targets) (lines raw).
Proof.
  intros H. apply captures_by_lines.
  - exact targets_bol_first.
  - exact targets_no_empty.
  - exact targets_no_nl_start.
  - exact targets_ends_line.
  - eapply Forall_impl; [|exact H]. intros l Hl. apply local_targets, Hl.
Qed.

Lemma options_by_lines (raw : list ascii) :
  Forall (fun l => ~ option_key_then_blank l) (lines raw) ->
  map extract (captures_iter regex_options raw) =
  flat_map (line_captures regex_options) (lines raw).
Proof.
  intros H. apply captures_by_lines.
  - exact options_bol_first.
  - exact options_no_empty.
  - exact options_no_nl_start.
  - exact options_ends_line.
  - eapply Forall_impl; [|exact H]. intros l Hl. apply local_options, Hl.
Qed.

Lemma line_end_ok_tail (stop : ascii) (p w : list ascii) :
  line_end_ok stop (p ++ stop :: w) = true ->
  ~ Forall (fun c => is_space c = true) w.
Proof.
  unfold line_end_ok. intros H Hw. destruct w as [|c w] using rev_ind.
  - rewrite rev_app_distr in H. simpl in H. rewrite Ascii.eqb_refl, andb_false_r in H.
    discriminate.
  - rewrite app_comm_cons, app_assoc, rev_app_distr in H. simpl in H.
    apply Forall_app in Hw as [_ Hc]. inversion Hc as [|? ? Hs _]. rewrite Hs in H.
    discriminate.
Qed.

Lemma line_end_ok_entry (l : list ascii) :
  line_end_ok "*"%char l = true -> ~ entry_header_then_blank l.
Proof.
  intros H (a & d & w & -> & _ & _ & _ & Hw). rewrite app_assoc in H.
  exact (line_end_ok_tail _ _ _ H Hw).
Qed.

Lemma line_end_ok_option (l : list ascii) :
  line_end_ok ":"%char l = true -> ~ option_key_then_blank l.
Proof.
  intros H (a & w & -> & _ & _ & Hw). exact (line_end_ok_tail _ _ _ H Hw).
Qed.

Lemma forallb_Forall_lines (stop : ascii) (P : list ascii -> Prop) (ls : list (list ascii)) :
  (forall l, line_end_ok stop l = true -> P l) ->
  forallb (line_end_ok stop) ls = true -> Forall P ls.
Proof.
  intros HP H. apply Forall_forall. intros l Hl. apply HP.
  rewrite forallb_forall in H. apply H, Hl.
Qed.

(** C4 (amended): when no line of the text is an entry header ending in ['*']
    that is followed only by whitespace, so that no entry match runs on past a
    line feed, [parse_boot_targets] returns the entries of the lines matched
    one by one against the entry regex, in the order of the lines, keeping
    exactly those whose id parses as a [u16]. The parser is a total function:
    it has no error result. *)
Theorem parse_entries_by_line (raw : list ascii)
  (Hlines : Forall (fun l => ~ entry_header_then_blank l) (lines raw)) :
  targets (parse_boot_targets raw) = flat_map entry_of_line (lines raw).
Proof.
  unfold parse_boot_targets. rewrite fold_push_target. cbn [targets].
  rewrite fold_apply_option_targets. cbn [targets app].
  rewrite (targets_by_lines raw Hlines), flat_map_flat_map. reflexivity.
Qed.

(** C5 (amended): when no line of the text is an option key and [':']
    followed only by whitespace, [current] and [next] come from the lines
    matched one by one against the option regex: the value of the LAST line
    with key [BootCurrent] (resp. [BootNext]), parsed as a [u16] or else 1,
    and [None] when no line has that key. *)
Theorem parse_keys_by_line (raw : list ascii)
  (Hlines : Forall (fun l => ~ option_key_then_blank l) (lines raw)) :
  current (parse_boot_targets raw) =
    option_map option_value (last_value (txt "BootCurrent") (option_lines raw)) /\
  next (parse_boot_targets raw) =
    option_map option_value (last_value (txt "BootNext") (option_lines raw)).
Proof.
  unfold parse_boot_targets. rewrite !fold_push_target. cbn [current next].
  rewrite (options_by_lines raw Hlines).
  destruct (fold_apply_option_keys (flat_map (line_captures regex_options) (lines raw))
              (mkTargets [] None None)) as [Hc Hn].
  rewrite Hc, Hn. unfold option_lines, option_value.
  split; destruct (last_value _ _); reflexivity.
Qed.

Lemma parse_entries_by_line_witness :
  targets (parse_boot_targets sample_listing) = flat_map entry_of_line (lines sample_listing) /\
  flat_map entry_of_line (lines sample_listing) =
    [mkTarget 0 (txt "Linux"); mkTarget 3 (txt "Windows Boot Manager")].
Proof.
  split.
  - apply parse_entries_by_line.
    apply (forallb_Forall_lines "*"%char); [exact line_end_ok_entry | vm_compute; reflexivity].
  - vm_compute. reflexivity.
Defined.

(** C4 (counterexample): no line of [spanning_entry_text] matches the entry
    regex on its own, yet the parser returns one entry: the match of [\s+]
    runs over the line feed into the next line. *)
Lemma entry_match_spans_lines :
  flat_map entry_of_line (lines spanning_entry_text) = [] /\
  targets (parse_boot_targets spanning_entry_text) = [mkTarget 1 []].
Proof. split; vm_compute; reflexivity. Qed.

Lemma parse_keys_by_line_witness :
  (current (parse_boot_targets sample_listing) =
     option_map option_value (last_value (txt "BootCurrent") (option_lines sample_listing)) /\
   next (parse_boot_targets sample_listing) =
     option_map option_value (last_value (txt "BootNext") (option_lines sample_listing))) /\
  option_map option_value (last_value (txt "BootCurrent") (option_lines sample_listing)) = Some 3%N /\
  option_map option_value (last_value (txt "BootNext") (option_lines sample_listing)) = Some 7%N /\
  next (parse_boot_targets bad_next_listing) =
     option_map option_value (last_value (txt "BootNext") (option_lines bad_next_listing)) /\
  option_map option_value (last_value (txt "BootNext") (option_lines bad_next_listing)) = Some 1%N.
Proof.
  split; [|split; [vm_compute; reflexivity|split; [vm_compute; reflexivity|split]]].
  - apply parse_keys_by_line.
    apply (forallb_Forall_lines ":"%char); [exact line_end_ok_option | vm_compute; reflexivity].
  - apply parse_keys_by_line.
    apply (forallb_Forall_lines ":"%char); [exact line_end_ok_option | vm_compute; reflexivity].
  - vm_compute. reflexivity.
Defined.

(** C5 (counterexample): the text [spanning_option_text] has the line
    [BootCurrent: 3], which the option regex matches on its own with value 3,
    yet [current] stays [None]: the match starting at [X:] runs over the line
    feed and takes [BootCurrent: 3] as the value of key [X]. *)
Lemma option_match_spans_lines :
  In (txt "BootCurrent: 3") (lines spanning_option_text) /\
  line_captures regex_options (txt "BootCurrent: 3") = [(txt "BootCurrent", txt "3")] /\
  current (parse_boot_targets spanning_option_text) = None.
Proof.
  split; [vm_compute; right; left; reflexivity|].
  split; vm_compute; reflexivity.
Qed.

(** ** Instances of the theorems on concrete inputs *)

Lemma reboot_to_reboots_after_failed_set_next_witness :
  invoked (reboot_to (fun _ => Exited (Some 1%Z)) (mkTarget 7 [])) =
    [set_next_boot (mkTarget 7 []); shutdown_reboot].
Proof.
  apply (reboot_to_reboots_after_failed_set_next _ _ (Some 1%Z)); reflexivity.
Defined.

Lemma tui_selection_cleanup_witness :
  tui_selection (fun _ => true) (fun _ => Exited (Some 0%Z)) (mkTargets three_targets None None)
    [quit_key] normal_term = (Ok (dispatch (fun _ => Exited (Some 0%Z)) ANone), normal_term) /\
  tui_selection (fun _ => true) (fun _ => Exited (Some 0%Z)) (mkTargets three_targets None None)
    [TickTimeout; TickReadError] normal_term = (Err, mkTerm true true).
Proof.
  destruct (tui_selection_cleanup (fun _ => true) (fun _ => Exited (Some 0%Z))
              (mkTargets three_targets None None) [quit_key]
              eq_refl eq_refl eq_refl eq_refl) as [Hq _].
  destruct (tui_selection_cleanup (fun _ => true) (fun _ => Exited (Some 0%Z))
              (mkTargets three_targets None None) [TickTimeout; TickReadError]
              eq_refl eq_refl eq_refl eq_refl) as [_ He].
  split; [exact (Hq ANone eq_refl) | exact (He eq_refl)].
Defined.

Lemma navigation_wraps_witness :
  (exists s, handle_key three_targets (Some 0%N) ANone (mkKey KUp Press false) = Continue s /\
     render_list 3 s = Some 2%N) /\
  (exists s, handle_key three_targets (Some 2%N) ANone (mkKey KDown Press false) = Continue s /\
     render_list 3 s = Some 0%N).
Proof.
  pose proof (navigation_wraps three_targets 0 ANone false
                ltac:(unfold usize_max; simpl; lia) ltac:(simpl; lia)) as H0.
  pose proof (navigation_wraps three_targets 2 ANone false
                ltac:(unfold usize_max; simpl; lia) ltac:(simpl; lia)) as H2.
  cbv zeta in H0, H2.
  destruct H0 as (_ & Hup & _). destruct H2 as (Hdown & _).
  split; [exact Hup | exact Hdown].
Defined.

Lemma enter_and_n_act_witness :
  handle_key three_targets (Some 1%N) ANone (mkKey KEnter Press false) =
    Break (RebootTo (mkTarget 1 (txt "b"))) /\
  handle_key three_targets (Some 5%N) ANone (mkKey (KChar "n"%char) Press false) = Break ANone.
Proof.
  split.
  - destruct (proj1 (enter_and_n_act three_targets (Some 1%N) ANone false RebootTo KEnter
                      (or_introl (conj eq_refl eq_refl))) 1%N eq_refl ltac:(simpl; lia))
      as (t & Ht & Hk).
    rewrite Hk. simpl in Ht. injection Ht as <-. reflexivity.
  - apply (proj2 (enter_and_n_act three_targets (Some 5%N) ANone false SetNext (KChar "n"%char)
                   (or_intror (conj eq_refl eq_refl)))).
    intros i Hi. injection Hi as <-. simpl. lia.
Defined.

Lemma set_next_boot_args_witness :
  args (set_next_boot (mkTarget 7 [])) = [txt "--bootnext"; txt "0007"] /\
  args (set_next_boot (mkTarget 12345 [])) = [txt "--bootnext"; txt "12345"].
Proof.
  destruct (set_next_boot_args (mkTarget 7 []) ltac:(simpl; lia)) as (_ & H7 & _).
  destruct (set_next_boot_args (mkTarget 12345 []) ltac:(simpl; lia)) as (_ & H5 & _).
  split; [exact H7 | exact H5].
Defined.

(** ** Further properties of the program *)

(** *** Numbers: [parse::<u16>] and [Display] *)

Lemma parse_digits_le (s : list ascii) : forall acc n,
  parse_digits acc s = Some n -> (acc <= 65535)%N -> (n <= 65535)%N.
Proof.
  induction s as [|c s IH]; intros acc n H Hacc; simpl in H.
  - injection H as <-. exact Hacc.
  - destruct (is_digit c); [|discriminate].
    destruct (N.leb_spec (acc * 10 + digit_val c) 65535); [|discriminate].
    exact (IH _ _ H H0).
Qed.

Lemma parse_u16_le (s : list ascii) (n : N) : parse_u16 s = Some n -> (n <= 65535)%N.
Proof.
  unfold parse_u16. destruct s as [|c rest]; [discriminate|].
  destruct (Ascii.eqb c "+"%char).
  - destruct rest; [discriminate|]. intros H. exact (parse_digits_le _ _ _ H ltac:(lia)).
  - intros H. exact (parse_digits_le _ _ _ H ltac:(lia)).
Qed.

Lemma parse_u16_dec (n : N) : (n <= 65535)%N -> parse_u16 (dec n) = Some n.
Proof.
  intros Hn.
  assert (Hdigits : Forall (fun c => is_digit c = true) (dec n))
    by (apply Forall_rev, dec_rev_digits).
  unfold parse_u16. destruct (dec n) as [|c r] eqn:E.
  - unfold dec in E. destruct (dec_rev 20 n) eqn:E2 using rev_ind; [discriminate|].
    rewrite rev_app_distr in E. discriminate.
  - inversion Hdigits as [|? ? Hc _]; subst.
    assert (Hplus : Ascii.eqb c "+"%char = false).
    { destruct (Ascii.eqb_spec c "+"%char); [subst c; discriminate | reflexivity]. }
    rewrite Hplus, <- E. unfold dec. apply dec_rev_value; [|exact Hn].
    apply (N.le_lt_trans _ 65535); [exact Hn|]. vm_compute. reflexivity.
Qed.

(** *** Literal characters a match needs *)

Lemma in_skipn_in {A} (j : nat) (s : list A) (x : A) : In x (skipn j s) -> In x s.
Proof. intros H. rewrite <- (firstn_skipn j s). apply in_or_app. right. exact H. Qed.

Lemma mtch_lit (its : list item) : forall b s res c,
  In (One (CLit c)) its -> mtch its b s = Some res -> In c s.
Proof.
  induction its as [|it r IH]; intros b s res c Hin H; [destruct Hin|].
  destruct Hin as [Heq | Hin].
  - subst it. simpl in H. destruct s as [|x s]; [discriminate|].
    destruct (Ascii.eqb_spec x c) as [E|E]; [left; exact E | discriminate].
  - destruct it as [| |k|g m k|n]; simpl in H.
    + destruct b; [exact (IH _ _ _ _ Hin H) | discriminate].
    + destruct (at_eol s); [exact (IH _ _ _ _ Hin H) | discriminate].
    + destruct s as [|x s]; [discriminate|].
      destruct (cls_ok k x); [|discriminate]. right. exact (IH _ _ _ _ Hin H).
    + apply first_some_some in H as (j & _ & Hj).
      apply (in_skipn_in j). exact (IH _ _ _ _ Hin Hj).
    + destruct (mtch r b s) as [[[b' s'] ms]|] eqn:E; [|discriminate].
      exact (IH _ _ _ _ Hin E).
Qed.

Lemma scan_lit (its : list item) (c : ascii) (Hin : In (One (CLit c)) its) :
  forall b s res, scan its b s = Some res -> In c s.
Proof.
  intros b s. revert b. induction s as [|x s IH]; intros b res H; simpl in H.
  - destruct (mtch its b []) eqn:E; [|discriminate]. exact (mtch_lit _ _ _ _ _ Hin E).
  - destruct (mtch its b (x :: s)) eqn:E.
    + exact (mtch_lit _ _ _ _ _ Hin E).
    + right. exact (IH _ _ H).
Qed.

Lemma captures_iter_lit (its : list item) (c : ascii) (s : list ascii) :
  In (One (CLit c)) its -> ~ In c s -> captures_iter its s = [].
Proof.
  intros Hin Hc. unfold captures_iter. cbn [iter].
  destruct (scan its true s) as [[[b' s'] ms]|] eqn:E; [|reflexivity].
  exfalso. exact (Hc (scan_lit _ _ Hin _ _ _ E)).
Qed.

(** *** The catalog [parse_boot_targets] builds *)

Lemma parse_targets_le (raw : list ascii) :
  Forall (fun t => (id t <= 65535)%N) (targets (parse_boot_targets raw)).
Proof.
  unfold parse_boot_targets. rewrite fold_push_target. cbn [targets app].
  rewrite fold_apply_option_targets. cbn [targets app].
  apply Forall_forall. intros t Ht. apply in_flat_map in Ht as ([i nm] & _ & Ht).
  unfold target_of in Ht. destruct (parse_u16 i) as [n|] eqn:E; [|destruct Ht].
  destruct Ht as [<-|[]]. exact (parse_u16_le _ _ E).
Qed.


Lemma star_in_regex_targets : In (One (CLit "*"%char)) regex_targets.
Proof. do 5 right. left. reflexivity. Qed.

Lemma tab_in_regex_targets : In (One (CLit tab)) regex_targets.
Proof. do 10 right. left. reflexivity. Qed.

Lemma colon_in_regex_options : In (One (CLit ":"%char)) regex_options.
Proof. do 4 right. left. reflexivity. Qed.


(** X2: a text with no ['*'] or no tab gives no entries, and a text with
    no [':'] leaves [current] and [next] unset. *)
Theorem parse_needs_markers (raw : list ascii) :
  (~ In "*"%char raw \/ ~ In tab raw -> targets (parse_boot_targets raw) = []) /\
  (~ In ":"%char raw ->
     current (parse_boot_targets raw) = None /\ next (parse_boot_targets raw) = None).
Proof.
  unfold parse_boot_targets. split.
  - intros H.
    assert (Hc : captures_iter regex_targets raw = []).
    { destruct H as [H|H]; [exact (captures_iter_lit _ _ _ star_in_regex_targets H)
                           | exact (captures_iter_lit _ _ _ tab_in_regex_targets H)]. }
    rewrite Hc. cbn [map fold_left]. apply fold_apply_option_targets.
  - intros H. rewrite (captures_iter_lit _ _ _ colon_in_regex_options H).
    rewrite fold_push_target. split; reflexivity.
Qed.

Lemma Forall2_map_l {A B} (f : B -> A) (P : A -> B -> Prop) (l : list B) :
  Forall (fun x => P (f x) x) l -> Forall2 P (map f l) l.
Proof. induction 1; constructor; assumption. Qed.

Lemma lookup_dec_id (bt : BootTargets) (t : BootTarget) :
  In t (targets bt) -> (id t <= 65535)%N ->
  exists t', lookup bt (dec (id t)) = Some t' /\ id t' = id t.
Proof.
  intros Hin Hle. unfold lookup. rewrite (parse_u16_dec _ Hle).
  destruct (find (fun u => N.eqb (id u) (id t)) (targets bt)) as [t'|] eqn:E.
  - exists t'. split; [reflexivity|]. apply find_some in E as [_ E]. apply N.eqb_eq, E.
  - apply find_none_iff in E. rewrite Forall_forall in E.
    specialize (E t Hin). rewrite N.eqb_refl in E. discriminate.
Qed.

(** X3: [reboot-to --list] writes one line per entry of the parsed
    catalog, in order: the id in decimal, [" \t "], the name.  Passing that
    decimal id back as a destination finds an entry with the same id (the
    first one), so every listed id resolves. *)
Theorem list_ids_round_trip (run : Cmd -> Status) (ok : Op -> bool) (ticks : list Tick)
  (raw : list ascii) (a : Arguments) (Hl : arg_list a = Some true) :
  ran (main run ok ticks (Some raw) a) = [efibootmgr_listing] /\
  Forall2 (fun line t =>
             line = dec (id t) ++ " "%char :: tab :: " "%char :: name t /\
             exists t', lookup (parse_boot_targets raw) (dec (id t)) = Some t' /\ id t' = id t)
    (out_lines (main run ok ticks (Some raw) a)) (targets (parse_boot_targets raw)).
Proof.
  unfold main, get_boot_targets. cbn [option_map]. rewrite Hl. cbn [unwrap_or ran out_lines].
  split; [reflexivity|]. unfold print_list. apply Forall2_map_l.
  pose proof (parse_targets_le raw) as Hle. rewrite Forall_forall in Hle |- *.
  intros t Ht. split; [reflexivity|]. exact (lookup_dec_id _ t Ht (Hle t Ht)).
Qed.

(** X4: [lookup] compares a numeric query by its value: a query that
    parses as the [u16] [n] (with leading zeros or a ['+'], as [0007] or
    [+7]) finds the same entry as [n] written in decimal. *)
Theorem lookup_numeric_by_value (bt : BootTargets) (q : list ascii) (n : N)
  (Hq : parse_u16 q = Some n) :
  lookup bt q = lookup bt (dec n).
Proof.
  unfold lookup. rewrite Hq, (parse_u16_dec _ (parse_u16_le _ _ Hq)). reflexivity.
Qed.

(** *** The list the TUI draws *)

Lemma is_some_and_eqb (o : option N) (n : N) :
  is_some_and o (fun x => N.eqb x n) = true <-> o = Some n.
Proof.
  destruct o as [x|]; simpl; [|split; discriminate].
  rewrite N.eqb_eq. split; [intros ->; reflexivity | intros [= ->]; reflexivity].
Qed.

Lemma is_some_and_eqb_false (o : option N) (n : N) :
  is_some_and o (fun x => N.eqb x n) = false <-> o <> Some n.
Proof.
  rewrite <- is_some_and_eqb. destruct (is_some_and _ _); split; congruence.
Qed.

(** X5: [get_names] gives one string per entry, in order: the name behind
    a five-character label, which is [nxt: ] for the entry whose id is
    [next], [cur: ] for the one whose id is [current] unless it is also
    [next] (then [nxt: ] wins), and five blanks otherwise. *)
Theorem get_names_labels (bt : BootTargets) :
  List.length (get_names bt) = List.length (targets bt) /\
  map (skipn 5) (get_names bt) = map name (targets bt) /\
  Forall2 (fun s t =>
     (firstn 5 s = txt "nxt: " <-> next bt = Some (id t)) /\
     (firstn 5 s = txt "cur: " <-> next bt <> Some (id t) /\ current bt = Some (id t)) /\
     (firstn 5 s = txt "     " <-> next bt <> Some (id t) /\ current bt <> Some (id t)))
    (get_names bt) (targets bt).
Proof.
  unfold get_names. split; [apply length_map|]. split.
  - rewrite map_map. apply map_ext. intros t.
    destruct (is_some_and _ _); [reflexivity|]. destruct (is_some_and _ _); reflexivity.
  - apply Forall2_map_l. apply Forall_forall. intros t _.
    destruct (is_some_and (next bt) _) eqn:En.
    + apply is_some_and_eqb in En. cbn [txt list_ascii_of_string app firstn].
      split; [tauto|]. split; split; try discriminate; tauto.
    + apply is_some_and_eqb_false in En.
      destruct (is_some_and (current bt) _) eqn:Ec.
      * apply is_some_and_eqb in Ec. cbn [txt list_ascii_of_string app firstn].
        split; [split; [discriminate | tauto]|]. split; [tauto|]. split; [discriminate | tauto].
      * apply is_some_and_eqb_false in Ec. cbn [txt list_ascii_of_string app firstn].
        split; [split; [discriminate | tauto]|]. split; [split; [discriminate | tauto]|]. tauto.
Qed.

(** *** The selection loop *)

Lemma render_list_idem (n : nat) (sel : option N) :
  render_list n (render_list n sel) = render_list n sel.
Proof.
  unfold render_list. destruct (Nat.eqb_spec n 0) as [E|E]; [reflexivity|].
  destruct sel as [s|]; [|reflexivity].
  destruct (N.leb_spec (N.of_nat n) s).
  - destruct (N.leb_spec (N.of_nat n) (N.of_nat n - 1)); [lia | reflexivity].
  - destruct (N.leb_spec (N.of_nat n) s); [lia | reflexivity].
Qed.

Lemma tui_loop_render (ts : list BootTarget) (sel : option N) (a : ChosenAction)
  (ticks : list Tick) :
  tui_loop ts (render_list (List.length ts) sel) a ticks = tui_loop ts sel a ticks.
Proof.
  destruct ticks as [|tk rest]; [reflexivity|].
  destruct tk as [| | | |e]; cbn [tui_loop]; rewrite ?render_list_idem; reflexivity.
Qed.

Lemma handle_key_not_press (ts : list BootTarget) (sel : option N) (a : ChosenAction)
  (k : KeyEvent) : key_kind k <> Press -> handle_key ts sel a k = Continue sel.
Proof.
  destruct k as [code [| |] ctrl]; cbn [key_kind]; intros H; [congruence | reflexivity | reflexivity].
Qed.

Lemma handle_key_break (ts : list BootTarget) (sel : option N) (a : ChosenAction)
  (k : KeyEvent) (b : ChosenAction) :
  handle_key ts sel a k = Break b ->
  b = a \/ exists mk sel', (mk = RebootTo \/ mk = SetNext) /\ b = chosen ts mk sel' a.
Proof.
  unfold handle_key. destruct k as [code kind ctrl]. cbn [key_code key_kind key_ctrl].
  destruct (negb (is_press kind)); [discriminate|].
  destruct (_ || _); [intros [= <-]; left; reflexivity|].
  destruct (_ && _); [intros [= <-]; left; reflexivity|].
  match goal with |- context [match ?x with None => Panic | Some _ => _ end] => destruct x end;
    [|discriminate].
  cbv zeta.
  destruct (keycode_eqb code KEnter).
  - intros [= <-]. right. eexists. eexists. split; [left; reflexivity | reflexivity].
  - destruct (keycode_eqb code (KChar "n"%char)); [|discriminate].
    intros [= <-]. right. eexists. eexists. split; [right; reflexivity | reflexivity].
Qed.

Lemma handle_key_panic (ts : list BootTarget) (sel : option N) (a : ChosenAction)
  (k : KeyEvent) : handle_key ts sel a k = Panic -> ts = [].
Proof.
  unfold handle_key. destruct k as [code kind ctrl]. cbn [key_code key_kind key_ctrl].
  destruct (negb (is_press kind)); [discriminate|].
  destruct (_ || _); [discriminate|].
  destruct (_ && _); [discriminate|].
  destruct (keycode_eqb code KDown).
  - unfold usize_sub. destruct (N.leb_spec 1 (N.of_nat (List.length ts))).
    + cbv beta iota zeta.
      destruct (keycode_eqb code KEnter); [discriminate|].
      destruct (keycode_eqb code (KChar "n"%char)); discriminate.
    + intros _. destruct ts; [reflexivity | simpl in *; lia].
  - cbv beta iota zeta.
    destruct (keycode_eqb code KEnter); [discriminate|].
    destruct (keycode_eqb code (KChar "n"%char)); discriminate.
Qed.

(** X6: rounds in which nothing is pressed (the poll timing out, an event
    that is not a key, a key released or repeated) do not change how the
    loop ends. *)
Theorem idle_rounds_change_nothing (ts : list BootTarget) (sel : option N)
  (a : ChosenAction) (ticks : list Tick) (t : Tick)
  (Hidle : t = TickTimeout \/ t = TickEvent EvOther \/
           exists k, t = TickEvent (EvKey k) /\ key_kind k <> Press) :
  tui_loop ts sel a (t :: ticks) = tui_loop ts sel a ticks.
Proof.
  destruct Hidle as [-> | [-> | (k & -> & Hk)]]; cbn [tui_loop]; [apply tui_loop_render.. |].
  rewrite handle_key_not_press by exact Hk. apply tui_loop_render.
Qed.

(** X7: when the loop breaks, the action is the one it started with or
    [RebootTo] / [SetNext] of an entry of the catalog. *)
Theorem loop_action_from_catalog (ts : list BootTarget) :
  forall ticks sel a b, tui_loop ts sel a ticks = ExitBreak b ->
  b = a \/ exists t, In t ts /\ (b = RebootTo t \/ b = SetNext t).
Proof.
  induction ticks as [|tk rest IH]; intros sel a b H; [discriminate|].
  destruct tk as [| | | |[k|]]; cbn [tui_loop] in H; try discriminate; try exact (IH _ _ _ H).
  destruct (handle_key ts (render_list (List.length ts) sel) a k) as [s'|b'|] eqn:E;
    [exact (IH _ _ _ H) | injection H as <- | discriminate].
  destruct (handle_key_break _ _ _ _ _ E) as [-> | (mk & s & Hmk & ->)]; [left; reflexivity|].
  unfold chosen. destruct s as [i|]; [|left; reflexivity].
  destruct (i <? _)%N; [|left; reflexivity].
  destruct (nth_error ts (N.to_nat i)) as [t|] eqn:Et; [|left; reflexivity].
  right. exists t. split; [exact (nth_error_In _ _ Et)|].
  destruct Hmk as [-> | ->]; [left | right]; reflexivity.
Qed.

(** X8: on a non-empty catalog the loop never panics, whatever keys come:
    the only panic of the loop is the [usize] underflow of Down on an empty
    catalog. *)
Theorem loop_never_panics_nonempty (ts : list BootTarget) (Hne : ts <> []) :
  forall ticks sel a, tui_loop ts sel a ticks <> ExitPanic.
Proof.
  induction ticks as [|tk rest IH]; intros sel a; [discriminate|].
  destruct tk as [| | | |[k|]]; cbn [tui_loop]; try discriminate; try apply IH.
  destruct (handle_key ts (render_list (List.length ts) sel) a k) as [s'|b'|] eqn:E;
    [apply IH | discriminate |].
  apply handle_key_panic in E. contradiction.
Qed.

Lemma tui_selection_ok_inv (ok : Op -> bool) (run : Cmd -> Status) (bt : BootTargets)
  (ticks : list Tick) (tr : Trace) (t' : Term) :
  tui_selection ok run bt ticks normal_term = (Ok tr, t') ->
  forallb ok [OpEnterAlternateScreen; OpEnableRawMode; OpTerminalNew; OpClear;
              OpLeaveAlternateScreen; OpDisableRawMode] = true /\
  t' = normal_term /\
  exists a, tui_loop (targets bt) (Some 0%N) ANone ticks = ExitBreak a /\ tr = dispatch run a.
Proof.
  unfold tui_selection, bind, io, loop_m, ret.
  destruct (ok OpEnterAlternateScreen) eqn:E1, (ok OpEnableRawMode) eqn:E2,
    (ok OpTerminalNew) eqn:E3, (ok OpClear) eqn:E4; try discriminate.
  destruct (tui_loop (targets bt) (Some 0%N) ANone ticks) as [a| | |]; try discriminate.
  destruct (ok OpLeaveAlternateScreen) eqn:E5, (ok OpDisableRawMode) eqn:E6; try discriminate.
  intros [= <- <-]. split; [simpl; rewrite E1, E2, E3, E4, E5, E6; reflexivity|].
  split; [reflexivity|]. exists a. auto.
Qed.

(** X9: [tui_selection] returns [Ok] only when every terminal step (the
    four of the setup, leaving the alternate screen, disabling raw mode)
    succeeded and the loop ended through a key; the terminal is then back to
    normal and what was run is the dispatch of the chosen action. *)
Theorem tui_selection_ok_path (ok : Op -> bool) (run : Cmd -> Status) (bt : BootTargets)
  (ticks : list Tick) (tr : Trace) (t' : Term)
  (H : tui_selection ok run bt ticks normal_term = (Ok tr, t')) :
  forallb ok [OpEnterAlternateScreen; OpEnableRawMode; OpTerminalNew; OpClear;
              OpLeaveAlternateScreen; OpDisableRawMode] = true /\
  t' = normal_term /\
  exists a, tui_loop (targets bt) (Some 0%N) ANone ticks = ExitBreak a /\ tr = dispatch run a.
Proof. exact (tui_selection_ok_inv ok run bt ticks tr t' H). Qed.

(** *** The external commands *)

Lemma set_next_not_shutdown (t : BootTarget) : set_next_boot t <> shutdown_reboot.
Proof. intros E. apply (f_equal program) in E. simpl in E. discriminate E. Qed.

Lemma listing_not_shutdown : efibootmgr_listing <> shutdown_reboot.
Proof. intros E. apply (f_equal program) in E. simpl in E. discriminate E. Qed.

Lemma wrapper_invoked (run : Cmd -> Status) (t : BootTarget) :
  invoked (set_next_boot_wrapper run t) = [set_next_boot t].
Proof. unfold set_next_boot_wrapper. destruct (run (set_next_boot t)); reflexivity. Qed.

Lemma reboot_to_shutdown_inv (run : Cmd -> Status) (t : BootTarget) :
  In shutdown_reboot (invoked (reboot_to run t)) ->
  invoked (reboot_to run t) = [set_next_boot t; shutdown_reboot] /\
  run (set_next_boot t) <> LaunchError.
Proof.
  unfold reboot_to. destruct (run (set_next_boot t)) as [|c].
  - cbn [invoked In]. intros [E|[]]. exfalso. exact (set_next_not_shutdown t E).
  - intros _. split; [reflexivity | discriminate].
Qed.

(** X10: [set_next_boot_wrapper] runs [efibootmgr --bootnext] once and
    nothing else (never [shutdown]), and prints nothing exactly when that
    command succeeds. *)
Theorem set_next_boot_wrapper_once (run : Cmd -> Status) (t : BootTarget) :
  invoked (set_next_boot_wrapper run t) = [set_next_boot t] /\
  (printed (set_next_boot_wrapper run t) = [] <-> success (run (set_next_boot t)) = true).
Proof.
  split; [apply wrapper_invoked|].
  unfold set_next_boot_wrapper. destruct (run (set_next_boot t)) as [|c] eqn:E.
  - cbn [printed success]. split; discriminate.
  - cbv zeta. cbn [printed]. destruct (success (Exited c)); split; try reflexivity; discriminate.
Qed.

(** X11: [reboot_to] prints nothing exactly when both [efibootmgr
    --bootnext] and [shutdown -r now] succeed; once [efibootmgr] has been
    launched, the message that the reboot failed is printed exactly when
    [shutdown] does not succeed. *)
Theorem reboot_to_messages (run : Cmd -> Status) (t : BootTarget) :
  (printed (reboot_to run t) = [] <->
     success (run (set_next_boot t)) = true /\ success (run shutdown_reboot) = true) /\
  (run (set_next_boot t) <> LaunchError ->
     (In (txt "Unable to reboot using shutdown command. Bootnext has been set, either reboot manually or clear")
         (printed (reboot_to run t)) <->
      success (run shutdown_reboot) = false)).
Proof.
  unfold reboot_to. destruct (run (set_next_boot t)) as [|c] eqn:E.
  - cbn [printed]. split.
    + split; [discriminate | intros [H _]; discriminate H].
    + intros H. contradiction.
  - cbv zeta. cbn [printed]. split.
    + destruct (success (Exited c)), (success (run shutdown_reboot)); cbn [app];
        (split; [intros Hp; try discriminate Hp; split; reflexivity
                | intros [H1 H2]; try discriminate H1; try discriminate H2; reflexivity]).
    + intros _. destruct (success (Exited c)), (success (run shutdown_reboot)); cbn [app In];
        split; try tauto; try discriminate;
        intros [H|H]; try tauto; try discriminate H; destruct H as [H|[]]; discriminate H.
Qed.

(** *** [main] *)

(** X12: given a listing, [main] exits with failure exactly when it is not
    in [--list] mode and the destination it resolves ([--reboot-to] if
    given, else [--next]) matches no entry; it then runs nothing beyond the
    listing and writes the not-found message to standard error.  How [main]
    ends never depends on the status of [efibootmgr --bootnext] or
    [shutdown]. *)
Theorem main_exit_code (run : Cmd -> Status) (ok : Op -> bool) (ticks : list Tick)
  (raw : list ascii) (a : Arguments) :
  (ends (main run ok ticks (Some raw) a) = Exit ExitFailure <->
     unwrap_or (arg_list a) false = false /\
     exists d, (arg_reboot_to a = Some d \/ (arg_reboot_to a = None /\ arg_next a = Some d)) /\
               lookup (parse_boot_targets raw) d = None) /\
  (ends (main run ok ticks (Some raw) a) = Exit ExitFailure ->
     ran (main run ok ticks (Some raw) a) = [efibootmgr_listing] /\
     exists d, err_lines (main run ok ticks (Some raw) a) = [not_found d]) /\
  (forall run' output,
     ends (main run ok ticks output a) = ends (main run' ok ticks output a)).
Proof.
  split; [|split].
  - unfold main, get_boot_targets. cbn [option_map].
    destruct (unwrap_or (arg_list a) false).
    { cbn [ends]. split; [discriminate | intros [H _]; discriminate H]. }
    destruct (arg_reboot_to a) as [d|].
    { destruct (lookup (parse_boot_targets raw) d) as [t|] eqn:L; cbn [ends after_listing].
      - split; [discriminate|]. intros [_ (d' & [[= <-]|[H _]] & H')]; [congruence | discriminate].
      - split; [intros _; split; [reflexivity | exists d; auto] | reflexivity]. }
    destruct (arg_next a) as [d|].
    { destruct (lookup (parse_boot_targets raw) d) as [t|] eqn:L; cbn [ends after_listing].
      - split; [discriminate|].
        intros [_ (d' & [H|[_ [= <-]]] & H')]; [discriminate | congruence].
      - split; [intros _; split; [reflexivity | exists d; auto] | reflexivity]. }
    split.
    + destruct (fst (tui_selection ok run (parse_boot_targets raw) ticks normal_term));
        discriminate.
    + intros [_ (d & [H|[_ H]] & _)]; discriminate H.
  - unfold main, get_boot_targets. cbn [option_map].
    destruct (unwrap_or (arg_list a) false); [discriminate|].
    destruct (arg_reboot_to a) as [d|].
    { destruct (lookup (parse_boot_targets raw) d); [discriminate|].
      intros _. split; [reflexivity | exists d; reflexivity]. }
    destruct (arg_next a) as [d|].
    { destruct (lookup (parse_boot_targets raw) d); [discriminate|].
      intros _. split; [reflexivity | exists d; reflexivity]. }
    destruct (fst (tui_selection ok run (parse_boot_targets raw) ticks normal_term));
      discriminate.
  - intros run' output. unfold main, get_boot_targets.
    destruct output as [r|]; [|reflexivity]. cbn [option_map].
    destruct (unwrap_or (arg_list a) false); [reflexivity|].
    destruct (arg_reboot_to a) as [d|].
    { destruct (lookup (parse_boot_targets r) d); reflexivity. }
    destruct (arg_next a) as [d|].
    { destruct (lookup (parse_boot_targets r) d); reflexivity. }
    unfold tui_selection, bind, io, loop_m, ret.
    destruct (ok OpEnterAlternateScreen), (ok OpEnableRawMode), (ok OpTerminalNew),
      (ok OpClear); try reflexivity.
    destruct (tui_loop (targets (parse_boot_targets r)) (Some 0%N) ANone ticks);
      try reflexivity.
    destruct (ok OpLeaveAlternateScreen), (ok OpDisableRawMode); reflexivity.
Qed.

(** X13: [main] runs [shutdown -r now] only when it is not in [--list]
    mode and either [--reboot-to] names an entry or, with neither
    [--reboot-to] nor [--next] given, the TUI loop ends with [RebootTo] of an
    entry; it then runs exactly the listing, [efibootmgr --bootnext] for
    that entry (which was launched) and [shutdown -r now]. *)
Theorem main_shutdown_only_on_reboot (run : Cmd -> Status) (ok : Op -> bool)
  (ticks : list Tick) (output : option (list ascii)) (a : Arguments)
  (H : In shutdown_reboot (ran (main run ok ticks output a))) :
  exists raw t, output = Some raw /\ unwrap_or (arg_list a) false = false /\
    ((exists d, arg_reboot_to a = Some d /\ lookup (parse_boot_targets raw) d = Some t) \/
     (arg_reboot_to a = None /\ arg_next a = None /\
      tui_loop (targets (parse_boot_targets raw)) (Some 0%N) ANone ticks =
        ExitBreak (RebootTo t))) /\
    ran (main run ok ticks output a) = [efibootmgr_listing; set_next_boot t; shutdown_reboot] /\
    run (set_next_boot t) <> LaunchError.
Proof.
  revert H. unfold main, get_boot_targets.
  destruct output as [raw|];
    [|cbn [ran In]; intros [E|[]]; exfalso; exact (listing_not_shutdown E)].
  cbn [option_map].
  destruct (unwrap_or (arg_list a) false) eqn:Hl;
    [cbn [ran In]; intros [E|[]]; exfalso; exact (listing_not_shutdown E)|].
  destruct (arg_reboot_to a) as [d|] eqn:Hr.
  { destruct (lookup (parse_boot_targets raw) d) as [t|] eqn:L;
      [|cbn [ran In]; intros [E|[]]; exfalso; exact (listing_not_shutdown E)].
    cbn [after_listing ran In]. intros [E|Hin]; [exfalso; exact (listing_not_shutdown E)|].
    destruct (reboot_to_shutdown_inv run t Hin) as [Hinv Hlaunch].
    exists raw, t. split; [reflexivity|]. split; [reflexivity|].
    split; [left; exists d; auto|]. rewrite Hinv. auto. }
  destruct (arg_next a) as [d|] eqn:Hn.
  { destruct (lookup (parse_boot_targets raw) d) as [t|] eqn:L;
      cbn [after_listing ran In]; [rewrite wrapper_invoked; cbn [In]|];
      intros [E|E]; try (exfalso; exact (listing_not_shutdown E)).
    - destruct E as [E|[]]. exfalso. exact (set_next_not_shutdown t E).
    - destruct E. }
  destruct (tui_selection ok run (parse_boot_targets raw) ticks normal_term)
    as [r t'] eqn:ET. cbn [fst].
  destruct r as [tr| | |];
    [|cbn [ran In]; intros [E|[]]; exfalso; exact (listing_not_shutdown E) ..].
  destruct (tui_selection_ok_inv _ _ _ _ _ _ ET) as (_ & _ & act & Hloop & ->).
  cbn [after_listing ran In]. intros [E|Hin]; [exfalso; exact (listing_not_shutdown E)|].
  destruct act as [|t|t]; cbn [dispatch invoked In] in Hin.
  - destruct Hin.
  - destruct (reboot_to_shutdown_inv run t Hin) as [Hinv Hlaunch].
    exists raw, t. split; [reflexivity|]. split; [reflexivity|].
    split; [right; auto|]. cbn [dispatch]. rewrite Hinv. auto.
  - rewrite wrapper_invoked in Hin. destruct Hin as [E|[]].
    exfalso. exact (set_next_not_shutdown t E).
Qed.

(** *** Instances of the further properties *)

Lemma list_ids_round_trip_witness :
  ran (main all_succeed (fun _ => true) [] (Some sample_listing) list_args) =
    [efibootmgr_listing] /\
  List.length (out_lines (main all_succeed (fun _ => true) [] (Some sample_listing) list_args)) = 2.
Proof.
  destruct (list_ids_round_trip all_succeed (fun _ => true) [] sample_listing list_args eq_refl)
    as [Hran Hlines].
  split; [exact Hran|]. rewrite (Forall2_length Hlines). vm_compute. reflexivity.
Defined.

Lemma lookup_numeric_by_value_witness :
  lookup (mkTargets three_targets None None) (txt "+0002") =
    lookup (mkTargets three_targets None None) (dec 2) /\
  lookup (mkTargets three_targets None None) (dec 2) = Some (mkTarget 2 (txt "c")).
Proof.
  split; [apply lookup_numeric_by_value; vm_compute; reflexivity | vm_compute; reflexivity].
Defined.

Lemma idle_rounds_change_nothing_witness :
  tui_loop three_targets (Some 0%N) ANone [TickTimeout; key_tick KEnter Press] =
    tui_loop three_targets (Some 0%N) ANone [key_tick KEnter Press] /\
  tui_loop three_targets (Some 0%N) ANone [key_tick KDown Release; key_tick KEnter Press] =
    tui_loop three_targets (Some 0%N) ANone [key_tick KEnter Press].
Proof.
  split; apply idle_rounds_change_nothing.
  - left. reflexivity.
  - right. right. eexists. split; [reflexivity | discriminate].
Defined.

Lemma loop_action_from_catalog_witness :
  RebootTo (mkTarget 1 (txt "b")) = ANone \/
  exists t, In t three_targets /\
    (RebootTo (mkTarget 1 (txt "b")) = RebootTo t \/ RebootTo (mkTarget 1 (txt "b")) = SetNext t).
Proof.
  apply (loop_action_from_catalog three_targets [key_tick KDown Press; key_tick KEnter Press]
           (Some 0%N) ANone).
  vm_compute. reflexivity.
Defined.

Lemma loop_never_panics_nonempty_witness :
  tui_loop three_targets (Some 0%N) ANone [key_tick KDown Press; key_tick KUp Press] <> ExitPanic.
Proof. apply loop_never_panics_nonempty. discriminate. Defined.

Lemma tui_selection_ok_path_witness :
  exists a, tui_loop three_targets (Some 0%N) ANone [key_tick (KChar "n"%char) Press] =
              ExitBreak a /\
            dispatch all_succeed (SetNext (mkTarget 0 (txt "a"))) = dispatch all_succeed a.
Proof.
  destruct (tui_selection_ok_path (fun _ => true) all_succeed (mkTargets three_targets None None)
              [key_tick (KChar "n"%char) Press]
              (dispatch all_succeed (SetNext (mkTarget 0 (txt "a")))) normal_term
              ltac:(vm_compute; reflexivity)) as (_ & _ & a & Ha & Htr).
  exists a. split; [exact Ha | exact Htr].
Defined.

Lemma reboot_to_messages_witness :
  In (txt "Unable to reboot using shutdown command. Bootnext has been set, either reboot manually or clear")
     (printed (reboot_to shutdown_fails (mkTarget 3 []))).
Proof.
  apply (proj2 (reboot_to_messages shutdown_fails (mkTarget 3 [])));
    [vm_compute; discriminate | vm_compute; reflexivity].
Defined.

Lemma main_shutdown_only_on_reboot_witness :
  exists t, ran (main all_succeed (fun _ => true) [] (Some sample_listing) reboot_linux_args) =
              [efibootmgr_listing; set_next_boot t; shutdown_reboot].
Proof.
  destruct (main_shutdown_only_on_reboot all_succeed (fun _ => true) [] (Some sample_listing)
              reboot_linux_args ltac:(vm_compute; right; right; left; reflexivity))
    as (raw & t & _ & _ & _ & Hran & _).
  exists t. exact Hran.
Defined.
